(** * XRPL.Sale JS SDK: webhook verification and retry executor

    A shallow embedding of [src/services/webhooks.ts] (class
    [WebhooksService]: [verifySignature], [safeCompare], [parseWebhook],
    [middleware]) and of [src/utils/index.ts] (class [RetryUtils]:
    [withRetry]), with the properties the specification states about them.

    Conventions.
    - A JavaScript string is the list of its UTF-16 code units ([jsstring]);
      [s.length] is the length of the list and [s.charCodeAt(i)] its
      [i]-th element.
    - A [Buffer] is a list of bytes.
    - A JavaScript exception is a value of the monad [result]; [Throw e]
      is [throw e].
    - The built-ins of the Node.js runtime that the service calls
      ([crypto.createHmac], [Buffer.prototype.toString], [JSON.parse]) are
      the fields of the class [Runtime]; the service is written over an
      arbitrary runtime, and [Node.runtime] is an executable instance. *)

From Stdlib Require Import List NArith ZArith Lia Bool String Ascii.
From Stdlib.Strings Require Import Byte.
From Stdlib Require QArith.
Import ListNotations.

Set Implicit Arguments.
Set Warnings "-register-all".
Set Default Proof Using "Type".

(* ================================================================== *)
(** * JavaScript values used by the SDK *)
(* ================================================================== *)

Module JS.

(** A string value: its UTF-16 code units, each below [2^16]. *)
Definition jsstring := list N.

(** The string a literal of the source denotes (ASCII literals only). *)
Definition lit (s : string) : jsstring :=
  List.map N_of_ascii (list_ascii_of_string s).

(** [s.length] *)
Definition length (s : jsstring) : nat := List.length s.

(** [s.charCodeAt(i)].  Out of range JavaScript answers [NaN], which the
    bit operators [^] and [|] read as [0]. *)
Definition charCodeAt (s : jsstring) (i : nat) : N := nth i s 0%N.

(** [!s] for an optional string: [undefined] and the empty string are
    falsy, every other string is truthy. *)
Definition falsy (s : option jsstring) : bool :=
  match s with
  | None => true
  | Some [] => true
  | Some (_ :: _) => false
  end.

(** The payload type of the webhook entry points: [string | Buffer]. *)
Inductive payload :=
| PString (s : jsstring)
| PBuffer (b : list byte).

(** A value produced by [JSON.parse].  A number is kept as the text of its
    literal (its IEEE double is never inspected by the SDK).  An object is
    the list of its own properties in the order [JSON.parse] creates them,
    keys distinct (the SDK never enumerates them, so the place JavaScript
    gives to array-index keys does not matter). *)
Inductive json :=
| JNull
| JBool (b : bool)
| JNumber (literal : jsstring)
| JString (s : jsstring)
| JArray (items : list json)
| JObject (props : list (jsstring * json)).

Definition jsstring_eqb (a b : jsstring) : bool :=
  if list_eq_dec N.eq_dec a b then true else false.

(** [o[k] = v] on the property list of an object: an existing key keeps
    its place and takes the new value, a new key goes last. *)
Fixpoint set_prop (k : jsstring) (v : json) (props : list (jsstring * json))
  : list (jsstring * json) :=
  match props with
  | [] => [(k, v)]
  | (k', v') :: rest =>
      if jsstring_eqb k k' then (k, v) :: rest
      else (k', v') :: set_prop k v rest
  end.

(** [k in o] for a value: only an object has properties. *)
Definition has_prop (k : jsstring) (v : json) : bool :=
  match v with
  | JObject props => existsb (fun kv => jsstring_eqb k (fst kv)) props
  | _ => false
  end.

End JS.
Import JS.

(* ================================================================== *)
(** * Exceptions *)
(* ================================================================== *)

(** [src/errors/index.ts]: [new XRPLSaleError(message)] (the optional
    [statusCode] and [details] are left [undefined] by every [throw] of
    the webhook service). *)
Record XRPLSaleError := mkXRPLSaleError { message : string }.

(** A computation that returns or throws. *)
Inductive result (A : Type) :=
| Return (a : A)
| Throw (e : XRPLSaleError).
Arguments Return {A} a.
Arguments Throw {A} e.

(* ================================================================== *)
(** * The runtime's built-ins *)
(* ================================================================== *)

Class Runtime := {
  (** [createHmac('sha256', key).update(payload).digest('hex')] *)
  createHmac_sha256_hex : jsstring -> payload -> jsstring;
  (** [buffer.toString()] *)
  Buffer_toString : list byte -> jsstring;
  (** [JSON.parse(text)]; [None] when it throws a [SyntaxError]. *)
  JSON_parse : jsstring -> option json
}.

(** An executable runtime: UTF-8 (WHATWG Encoding), SHA-256 (FIPS 180-4),
    HMAC (RFC 2104) and the JSON grammar (ECMA-404). *)
Module Node.

Local Open Scope N_scope.

(** ** UTF-8 *)

Definition is_high_surrogate (u : N) : bool := (0xD800 <=? u) && (u <=? 0xDBFF).
Definition is_low_surrogate (u : N) : bool := (0xDC00 <=? u) && (u <=? 0xDFFF).

(** The UTF-8 bytes of one code point. *)
Definition utf8_of_code_point (c : N) : list N :=
  if c <? 0x80 then [c]
  else if c <? 0x800 then
    [N.lor 0xC0 (N.shiftr c 6); N.lor 0x80 (N.land c 0x3F)]
  else if c <? 0x10000 then
    [N.lor 0xE0 (N.shiftr c 12);
     N.lor 0x80 (N.land (N.shiftr c 6) 0x3F);
     N.lor 0x80 (N.land c 0x3F)]
  else
    [N.lor 0xF0 (N.shiftr c 18);
     N.lor 0x80 (N.land (N.shiftr c 12) 0x3F);
     N.lor 0x80 (N.land (N.shiftr c 6) 0x3F);
     N.lor 0x80 (N.land c 0x3F)].

(** [Buffer.from(s, 'utf8')]: a surrogate pair is one code point, a lone
    surrogate is encoded as U+FFFD. *)
Fixpoint utf8_encode (s : jsstring) : list N :=
  match s with
  | [] => []
  | u :: rest =>
      if is_high_surrogate u then
        match rest with
        | v :: rest' =>
            if is_low_surrogate v then
              utf8_of_code_point
                (0x10000 + N.shiftl (u - 0xD800) 10 + (v - 0xDC00))
              ++ utf8_encode rest'
            else utf8_of_code_point 0xFFFD ++ utf8_encode rest
        | [] => utf8_of_code_point 0xFFFD
        end
      else if is_low_surrogate u then
        utf8_of_code_point 0xFFFD ++ utf8_encode rest
      else utf8_of_code_point u ++ utf8_encode rest
  end.

(** The UTF-16 code units of one code point. *)
Definition utf16_of_code_point (c : N) : list N :=
  if c <? 0x10000 then [c]
  else [0xD800 + N.shiftr (c - 0x10000) 10;
        0xDC00 + N.land (c - 0x10000) 0x3FF].

(** State of the decoder inside a multi-byte sequence: the code point so
    far, the continuation bytes still needed, and the bounds of the next
    byte. *)
Record utf8_pending := {
  code_point : N; needed : N; lower : N; upper : N
}.

(** The decoder on a byte read outside a sequence; [k] decodes the rest. *)
Definition utf8_lead (b : N) (k : option utf8_pending -> list N) : list N :=
  if b <? 0x80 then b :: k None
  else if (0xC2 <=? b) && (b <=? 0xDF) then
    k (Some {| code_point := N.land b 0x1F; needed := 1;
               lower := 0x80; upper := 0xBF |})
  else if (0xE0 <=? b) && (b <=? 0xEF) then
    k (Some {| code_point := N.land b 0xF; needed := 2;
               lower := if b =? 0xE0 then 0xA0 else 0x80;
               upper := if b =? 0xED then 0x9F else 0xBF |})
  else if (0xF0 <=? b) && (b <=? 0xF4) then
    k (Some {| code_point := N.land b 0x7; needed := 3;
               lower := if b =? 0xF0 then 0x90 else 0x80;
               upper := if b =? 0xF4 then 0x8F else 0xBF |})
  else 0xFFFD :: k None.

(** The code points of a byte sequence; an ill-formed sequence yields
    U+FFFD and decoding resumes at the offending byte. *)
Fixpoint utf8_decode (bs : list N) (st : option utf8_pending) : list N :=
  match bs with
  | [] => match st with None => [] | Some _ => [0xFFFD] end
  | b :: rest =>
      match st with
      | None => utf8_lead b (utf8_decode rest)
      | Some p =>
          if (lower p <=? b) && (b <=? upper p) then
            let c := N.lor (N.shiftl (code_point p) 6) (N.land b 0x3F) in
            if needed p =? 1 then c :: utf8_decode rest None
            else utf8_decode rest
                   (Some {| code_point := c; needed := needed p - 1;
                            lower := 0x80; upper := 0xBF |})
          else 0xFFFD :: utf8_lead b (utf8_decode rest)
      end
  end.

Definition bytes_to_N (b : list byte) : list N := List.map Byte.to_N b.

(** [buffer.toString()] (encoding ['utf8']). *)
Definition toString (b : list byte) : jsstring :=
  flat_map utf16_of_code_point (utf8_decode (bytes_to_N b) None).

(** The bytes [hash.update(data)] feeds to the hash. *)
Definition payload_bytes (p : payload) : list N :=
  match p with
  | PString s => utf8_encode s
  | PBuffer b => bytes_to_N b
  end.

(** ** SHA-256 *)

Definition w32 (x : N) : N := x mod 2 ^ 32.
Definition add32 (x y : N) : N := w32 (x + y).
Definition rotr (n x : N) : N :=
  N.lor (N.shiftr x n) (w32 (N.shiftl x (32 - n))).
Definition not32 (x : N) : N := N.lxor x 0xFFFFFFFF.

Definition Ch (x y z : N) := N.lxor (N.land x y) (N.land (not32 x) z).
Definition Maj (x y z : N) :=
  N.lxor (N.lxor (N.land x y) (N.land x z)) (N.land y z).
Definition Sigma0 (x : N) := N.lxor (N.lxor (rotr 2 x) (rotr 13 x)) (rotr 22 x).
Definition Sigma1 (x : N) := N.lxor (N.lxor (rotr 6 x) (rotr 11 x)) (rotr 25 x).
Definition sigma0 (x : N) := N.lxor (N.lxor (rotr 7 x) (rotr 18 x)) (N.shiftr x 3).
Definition sigma1 (x : N) := N.lxor (N.lxor (rotr 17 x) (rotr 19 x)) (N.shiftr x 10).

(** The first 64 primes. *)
Definition is_prime (n : nat) : bool :=
  forallb (fun d => negb (Nat.eqb (n mod d) 0)) (seq 2 (n - 2)).
Definition primes : list N :=
  Eval vm_compute in List.map N.of_nat (filter is_prime (seq 2 310)).

(** Integer cube root, one bit at a time from bit [bits - 1] down. *)
Fixpoint cbrt_bits (bits : nat) (n r : N) : N :=
  match bits with
  | O => r
  | S b =>
      let r' := r + 2 ^ N.of_nat b in
      cbrt_bits b n (if r' * r' * r' <=? n then r' else r)
  end.

(** Round constants: the first 32 bits of the fractional parts of the
    cube roots of the first 64 primes. *)
Definition K : list N :=
  Eval vm_compute in
    List.map (fun p => w32 (cbrt_bits 40 (p * 2 ^ 96) 0)) primes.

(** Initial hash value: the first 32 bits of the fractional parts of the
    square roots of the first 8 primes. *)
Definition H0 : list N :=
  Eval vm_compute in
    List.map (fun p => w32 (N.sqrt (p * 2 ^ 64))) (firstn 8 primes).

(** Big-endian bytes of a number, [n] of them. *)
Fixpoint be_bytes (n : nat) (x : N) : list N :=
  match n with
  | O => []
  | S m => N.land (N.shiftr x (8 * N.of_nat m)) 0xFF :: be_bytes m x
  end.

Fixpoint be_word (bs : list N) (acc : N) : N :=
  match bs with
  | [] => acc
  | b :: rest => be_word rest (N.lor (N.shiftl acc 8) b)
  end.

(** Padding: a one bit, zero bits up to 56 mod 64 bytes, the length in
    bits on 8 bytes. *)
Definition pad (msg : list N) : list N :=
  let len := N.of_nat (List.length msg) in
  let zeros := N.to_nat ((119 - len mod 64) mod 64) in
  msg ++ [0x80] ++ repeat 0 zeros ++ be_bytes 8 (8 * len).

(** The first [n] big-endian 32-bit words of a byte list. *)
Fixpoint words (n : nat) (bs : list N) : list N :=
  match n with
  | O => []
  | S m => be_word (firstn 4 bs) 0 :: words m (skipn 4 bs)
  end.

(** Message schedule: [w] holds the words so far, newest first. *)
Fixpoint schedule (n : nat) (w : list N) : list N :=
  match n with
  | O => rev w
  | S m =>
      let x := add32 (add32 (sigma1 (nth 1 w 0)) (nth 6 w 0))
                     (add32 (sigma0 (nth 14 w 0)) (nth 15 w 0)) in
      schedule m (x :: w)
  end.

Record regs := { ra : N; rb : N; rc : N; rd : N;
                 re : N; rf : N; rg : N; rh : N }.

Definition round (s : regs) (kw : N * N) : regs :=
  let t1 := add32 (add32 (add32 (rh s) (Sigma1 (re s)))
                         (add32 (Ch (re s) (rf s) (rg s)) (fst kw)))
                  (snd kw) in
  let t2 := add32 (Sigma0 (ra s)) (Maj (ra s) (rb s) (rc s)) in
  {| ra := add32 t1 t2; rb := ra s; rc := rb s; rd := rc s;
     re := add32 (rd s) t1; rf := re s; rg := rf s; rh := rg s |}.

Definition regs_of (h : list N) : regs :=
  {| ra := nth 0 h 0; rb := nth 1 h 0; rc := nth 2 h 0; rd := nth 3 h 0;
     re := nth 4 h 0; rf := nth 5 h 0; rg := nth 6 h 0; rh := nth 7 h 0 |}.

Definition list_of (s : regs) : list N :=
  [ra s; rb s; rc s; rd s; re s; rf s; rg s; rh s].

Definition compress (h : list N) (block : list N) : list N :=
  let w := schedule 48 (rev (words 16 block)) in
  let s := fold_left round (combine K w) (regs_of h) in
  List.map (fun p => add32 (fst p) (snd p)) (combine h (list_of s)).

Fixpoint blocks (n : nat) (h : list N) (bs : list N) : list N :=
  match n with
  | O => h
  | S m => blocks m (compress h (firstn 64 bs)) (skipn 64 bs)
  end.

Definition sha256 (msg : list N) : list N :=
  let padded := pad msg in
  flat_map (be_bytes 4) (blocks (List.length padded / 64) H0 padded).

(** ** HMAC *)

Definition hmac_sha256 (key msg : list N) : list N :=
  let k := if (64 <? List.length key)%nat then sha256 key else key in
  let k := k ++ repeat 0 (64 - List.length k) in
  sha256 (List.map (N.lxor 0x5C) k ++ sha256 (List.map (N.lxor 0x36) k ++ msg)).

(** [digest('hex')]: two lower-case hexadecimal digits per byte. *)
Definition hex_digit (d : N) : N := if d <? 10 then 48 + d else 87 + d.
Definition hex (bs : list N) : jsstring :=
  flat_map (fun b => [hex_digit (N.shiftr b 4); hex_digit (N.land b 0xF)]) bs.

Definition hmac_sha256_hex (key : jsstring) (p : payload) : jsstring :=
  hex (hmac_sha256 (utf8_encode key) (payload_bytes p)).

(** ** JSON *)

Definition is_ws (u : N) : bool :=
  (u =? 32) || (u =? 9) || (u =? 10) || (u =? 13).

Fixpoint skip_ws (s : jsstring) : jsstring :=
  match s with
  | u :: rest => if is_ws u then skip_ws rest else s
  | [] => []
  end.

Definition is_digit (u : N) : bool := (48 <=? u) && (u <=? 57).

(** The longest prefix of digits, and what follows it. *)
Fixpoint digits (s : jsstring) : jsstring * jsstring :=
  match s with
  | u :: rest =>
      if is_digit u then let (ds, r) := digits rest in (u :: ds, r)
      else ([], s)
  | [] => ([], [])
  end.

(** [s] without the prefix [p], when it starts with it. *)
Fixpoint strip_prefix (p s : jsstring) : option jsstring :=
  match p, s with
  | [], _ => Some s
  | a :: p', b :: s' => if a =? b then strip_prefix p' s' else None
  | _ :: _, [] => None
  end.

(** A number literal: an optional minus sign; an integer part, a single
    zero or a non-zero digit and more digits; an optional fraction, a dot
    and one digit or more; an optional exponent, [e] or [E], an optional
    sign and one digit or more. *)
Definition number_int (s : jsstring) : option (jsstring * jsstring) :=
  match s with
  | 48 :: rest => Some ([48], rest)
  | _ => match digits s with
         | ([], _) => None
         | (ds, rest) => Some (ds, rest)
         end
  end.

Definition number_frac (s : jsstring) : option (jsstring * jsstring) :=
  match s with
  | 46 :: rest => match digits rest with
                  | ([], _) => None
                  | (ds, r) => Some (46 :: ds, r)
                  end
  | _ => Some ([], s)
  end.

Definition number_exp (s : jsstring) : option (jsstring * jsstring) :=
  match s with
  | e :: rest =>
      if (e =? 101) || (e =? 69) then
        let (sign, rest') :=
          match rest with
          | c :: r => if (c =? 43) || (c =? 45) then ([c], r) else ([], rest)
          | [] => ([], rest)
          end in
        match digits rest' with
        | ([], _) => None
        | (ds, r) => Some (e :: sign ++ ds, r)
        end
      else Some ([], s)
  | [] => Some ([], s)
  end.

Definition parse_number (s : jsstring) : option (json * jsstring) :=
  let (sign, s1) := match s with
                    | 45 :: rest => ([45], rest)
                    | _ => ([], s)
                    end in
  match number_int s1 with
  | None => None
  | Some (i, s2) =>
      match number_frac s2 with
      | None => None
      | Some (f, s3) =>
          match number_exp s3 with
          | None => None
          | Some (e, s4) => Some (JNumber (sign ++ i ++ f ++ e), s4)
          end
      end
  end.

Definition hex_value (u : N) : option N :=
  if is_digit u then Some (u - 48)
  else if (97 <=? u) && (u <=? 102) then Some (u - 87)
  else if (65 <=? u) && (u <=? 70) then Some (u - 55)
  else None.

Definition hex4 (a b c d : N) : option N :=
  match hex_value a, hex_value b, hex_value c, hex_value d with
  | Some x, Some y, Some z, Some t => Some (((x * 16 + y) * 16 + z) * 16 + t)
  | _, _, _, _ => None
  end.

(** The characters of a string literal after its opening quote; [acc]
    holds the units read so far, newest first. *)
Fixpoint parse_string (s : jsstring) (acc : jsstring)
  : option (jsstring * jsstring) :=
  match s with
  | [] => None
  | 34 :: rest => Some (rev acc, rest)
  | 92 :: rest =>
      match rest with
      | 34 :: r => parse_string r (34 :: acc)
      | 92 :: r => parse_string r (92 :: acc)
      | 47 :: r => parse_string r (47 :: acc)
      | 98 :: r => parse_string r (8 :: acc)
      | 102 :: r => parse_string r (12 :: acc)
      | 110 :: r => parse_string r (10 :: acc)
      | 114 :: r => parse_string r (13 :: acc)
      | 116 :: r => parse_string r (9 :: acc)
      | 117 :: a :: b :: c :: d :: r =>
          match hex4 a b c d with
          | Some u => parse_string r (u :: acc)
          | None => None
          end
      | _ => None
      end
  | u :: rest => if u <? 32 then None else parse_string rest (u :: acc)
  end.

(** A value, the elements of an array after the first bracket, the members
    of an object after the first brace.  [fuel] bounds the nesting and the
    number of elements; [parse] gives enough for the whole text. *)
Fixpoint parse_value (fuel : nat) (s : jsstring) : option (json * jsstring) :=
  match fuel with
  | O => None
  | S fuel' =>
      match skip_ws s with
      | [] => None
      | 123 :: rest =>
          match skip_ws rest with
          | 125 :: r => Some (JObject [], r)
          | _ => parse_members fuel' [] rest
          end
      | 91 :: rest =>
          match skip_ws rest with
          | 93 :: r => Some (JArray [], r)
          | _ => parse_elements fuel' [] rest
          end
      | 34 :: rest =>
          match parse_string rest [] with
          | Some (str, r) => Some (JString str, r)
          | None => None
          end
      | 116 :: _ =>
          match strip_prefix (lit "true") (skip_ws s) with
          | Some r => Some (JBool true, r)
          | None => None
          end
      | 102 :: _ =>
          match strip_prefix (lit "false") (skip_ws s) with
          | Some r => Some (JBool false, r)
          | None => None
          end
      | 110 :: _ =>
          match strip_prefix (lit "null") (skip_ws s) with
          | Some r => Some (JNull, r)
          | None => None
          end
      | _ => parse_number (skip_ws s)
      end
  end
with parse_elements (fuel : nat) (acc : list json) (s : jsstring)
  : option (json * jsstring) :=
  match fuel with
  | O => None
  | S fuel' =>
      match parse_value fuel' s with
      | None => None
      | Some (v, r) =>
          match skip_ws r with
          | 44 :: r' => parse_elements fuel' (v :: acc) r'
          | 93 :: r' => Some (JArray (rev (v :: acc)), r')
          | _ => None
          end
      end
  end
with parse_members (fuel : nat) (acc : list (jsstring * json)) (s : jsstring)
  : option (json * jsstring) :=
  match fuel with
  | O => None
  | S fuel' =>
      match skip_ws s with
      | 34 :: r =>
          match parse_string r [] with
          | None => None
          | Some (k, r1) =>
              match skip_ws r1 with
              | 58 :: r2 =>
                  match parse_value fuel' r2 with
                  | None => None
                  | Some (v, r3) =>
                      match skip_ws r3 with
                      | 44 :: r4 => parse_members fuel' (set_prop k v acc) r4
                      | 125 :: r4 => Some (JObject (set_prop k v acc), r4)
                      | _ => None
                      end
                  end
              | _ => None
              end
          end
      | _ => None
      end
  end.

(** [JSON.parse(text)]: one value between optional white space. *)
Definition parse (text : jsstring) : option json :=
  match parse_value (2 * List.length text + 2) text with
  | Some (v, rest) =>
      match skip_ws rest with
      | [] => Some v
      | _ :: _ => None
      end
  | None => None
  end.

Definition runtime : Runtime :=
  {| createHmac_sha256_hex := hmac_sha256_hex;
     Buffer_toString := toString;
     JSON_parse := parse |}.

End Node.


(* ================================================================== *)
(** * [WebhooksService] ([src/services/webhooks.ts]) *)
(* ================================================================== *)

(** The service object.  Of the constructor's two fields only
    [webhookSecret] is read by the methods below ([httpClient] serves the
    REST wrappers). *)
Record WebhooksService := { webhookSecret : option jsstring }.

(** The [options] argument of [middleware]; both fields are optional. *)
Record MiddlewareOptions := {
  secret : option jsstring;
  verifySignature_option : option bool
}.

(** What the middleware reads of the request: the raw body and the header
    object.  The body is the raw body, a string or a [Buffer], the types
    [verifySignature] and [parseWebhook] declare; a request whose body is
    of another type ([req] is untyped in the source) is outside this
    record.  Node.js stores header names in lower case, and the value of a
    header that is not one of the few list-valued ones is a string (several
    occurrences are joined), absent when the header is. *)
Record Request := {
  body : payload;
  headers : string -> option jsstring
}.

(** What the middleware does with the request: it answers
    [res.status(status).json({ error })], or it stores the event in
    [req.webhookEvent] and in [req.body] and calls [next()]. *)
Inductive Outcome :=
| Respond (status : Z) (error : string)
| Next (webhookEvent : json) (body' : json).

Section Webhooks.

Context {R : Runtime}.
Variable this : WebhooksService.

(** [safeCompare(a, b)]: the loop
    [for (i = 0; i < a.length; i++) result |= a.charCodeAt(i) ^ b.charCodeAt(i)]
    is a fold over the indices.  Code units are below [2^16], so the
    32-bit operators [^] and [|] are [N.lxor] and [N.lor]. *)
Definition safeCompare (a b : jsstring) : bool :=
  if negb (Nat.eqb (JS.length a) (JS.length b)) then false
  else
    let result :=
      fold_left
        (fun result i => N.lor result (N.lxor (charCodeAt a i) (charCodeAt b i)))
        (seq 0 (JS.length a)) 0%N in
    N.eqb result 0.

(** [secret || this.webhookSecret!].  Past the guard of [verifySignature]
    one of the two is a non-empty string. *)
Definition secretToUse (secret : option jsstring) : jsstring :=
  match secret with
  | Some (u :: s) => u :: s
  | _ => match webhookSecret this with
         | Some s => s
         | None => []
         end
  end.

(** [verifySignature(payload, signature, secret?)] *)
Definition verifySignature (payload : payload) (signature : jsstring)
    (secret : option jsstring) : result bool :=
  if falsy secret && falsy (webhookSecret this) then
    Throw (mkXRPLSaleError
             "Webhook secret is required for signature verification")
  else
    let expectedSignature :=
      createHmac_sha256_hex (secretToUse secret) payload in
    Return (safeCompare (lit "sha256=" ++ expectedSignature) signature).

(** [parseWebhook(payload)]: whatever [toString] or [JSON.parse] throws is
    replaced by the service's own error. *)
Definition parseWebhook (payload : payload) : result json :=
  let data := match payload with
              | PString s => s
              | PBuffer b => Buffer_toString b
              end in
  match JSON_parse data with
  | Some event => Return event
  | None => Throw (mkXRPLSaleError "Invalid webhook payload")
  end.

(** [options?.verifySignature !== false] *)
Definition verification_enabled (options : option MiddlewareOptions) : bool :=
  match options with
  | Some {| verifySignature_option := Some false |} => false
  | _ => true
  end.

(** [options?.secret] *)
Definition options_secret (options : option MiddlewareOptions)
  : option jsstring :=
  match options with
  | Some o => secret o
  | None => None
  end.

(** The body of the [try] block after the signature check. *)
Definition parse_and_continue (rawBody : payload) : result Outcome :=
  match parseWebhook rawBody with
  | Return event => Return (Next event event)
  | Throw e => Throw e
  end.

(** [middleware(options)(req, res, next)].  An early [return res...] is a
    [Return] of the [try] block; the [catch] turns a thrown error into the
    400 response with its message. *)
Definition middleware (options : option MiddlewareOptions) (req : Request)
  : Outcome :=
  let rawBody := body req in
  let tried :=
    if verification_enabled options then
      match headers req "x-xrpl-sale-signature" with
      | Some (u :: s) =>
          let signature := u :: s in
          match verifySignature rawBody signature (options_secret options) with
          | Throw e => Throw e
          | Return false => Return (Respond 401 "Invalid signature")
          | Return true => parse_and_continue rawBody
          end
      | _ => Return (Respond 401 "Missing signature header")
      end
    else parse_and_continue rawBody in
  match tried with
  | Return outcome => outcome
  | Throw e => Respond 400 (message e)
  end.

End Webhooks.

(* ================================================================== *)
(** * [RetryUtils] ([src/utils/index.ts]) *)
(* ================================================================== *)

Section Retry.

(** [W] is the state of everything the operation can see or change, [T]
    the type of its result, [E] the type of the values it can throw,
    which as every JavaScript type holds [undefined]. *)
Variables W T E : Type.
Variable undefined : E.

(** [await fn()] from a given state: the promise resolves ([inl]) or
    rejects ([inr]). *)
Variable fn : W -> (T + E) * W.

(** How the world changes while the caller waits [ms] milliseconds. *)
Variable sleep : Z -> W -> W.

(** What an observer of the executor sees, in order. *)
Inductive event :=
| Invoked (settled : T + E)
| Waited (ms : Z).

Record state := { world : W; trace : list event }.

Definition invoke (s : state) : (T + E) * state :=
  let (r, w) := fn (world s) in
  (r, {| world := w; trace := trace s ++ [Invoked r] |}).

(** [await new Promise(resolve => setTimeout(resolve, ms))] *)
Definition setTimeout (ms : Z) (s : state) : state :=
  {| world := sleep ms (world s); trace := trace s ++ [Waited ms] |}.

(** The arguments of [withRetry], taken integral.  The delay handed to
    [setTimeout] is the double [delay * Math.pow(backoff, i)]; it is the
    exact product written below as long as the power and the product are
    safe integers ([exact_delays]), which the statements about the values
    of the delays assume. *)
Variables maxRetries delay backoff : Z.

(** The values [i] takes in [for (let i = 0; i <= maxRetries; i++)]. *)
Definition indices : list Z :=
  List.map Z.of_nat (seq 0 (Z.to_nat (maxRetries + 1))).

(** The loop over the remaining values of [i]; [lastError] is the
    variable of the source.  Leaving the loop reaches [throw lastError!]. *)
Fixpoint attempts (ixs : list Z) (lastError : E) (s : state)
  : (T + E) * state :=
  match ixs with
  | [] => (inr lastError, s)
  | i :: rest =>
      match invoke s with
      | (inl value, s1) => (inl value, s1)
      | (inr error, s1) =>
          if (i =? maxRetries)%Z then (inr error, s1)
          else attempts rest error (setTimeout (delay * backoff ^ i) s1)
      end
  end.

(** [withRetry(fn, maxRetries, delay, backoff)] started in world [w]. *)
Definition withRetry (w : W) : (T + E) * state :=
  attempts indices undefined {| world := w; trace := [] |}.

(** The number of times the operation was invoked. *)
Definition invocations (tr : list event) : nat :=
  List.length (filter (fun ev => match ev with Invoked _ => true | Waited _ => false end) tr).

(** The delays waited, in order. *)
Definition waits (tr : list event) : list Z :=
  flat_map (fun ev => match ev with Invoked _ => [] | Waited ms => [ms] end) tr.

End Retry.

Arguments Invoked {T E} settled.
Arguments Waited {T E} ms.

(** The default arguments of [withRetry]. *)
Definition default_maxRetries : Z := 3.
Definition default_delay : Z := 1000.
Definition default_backoff : Z := 2.

(* ================================================================== *)
(** * Scenario data (specification, section 8) *)
(* ================================================================== *)

Module Scenario.

(** A literal written with apostrophes where the text has double quotes. *)
Definition quoted (s : string) : jsstring :=
  List.map (fun u => if N.eqb u 39 then 34%N else u) (lit s).

Definition payload : payload :=
  PString (quoted
    "{'id':'evt_1','type':'investment.confirmed','data':{},'timestamp':'2025-01-01T00:00:00Z','version':'1'}").

Definition event : json :=
  JObject [ (lit "id", JString (lit "evt_1"));
            (lit "type", JString (lit "investment.confirmed"));
            (lit "data", JObject []);
            (lit "timestamp", JString (lit "2025-01-01T00:00:00Z"));
            (lit "version", JString (lit "1")) ].

(** A service configured with the secret ["whsec_test"], and one with no
    secret. *)
Definition service : WebhooksService :=
  {| webhookSecret := Some (lit "whsec_test") |}.
Definition unconfigured : WebhooksService := {| webhookSecret := None |}.

(** A request with the given body and signature header. *)
Definition request (b : JS.payload) (signature : option jsstring) : Request :=
  {| body := b;
     headers := fun name =>
       if String.eqb name "x-xrpl-sale-signature" then signature else None |}.

(** [sign(payload, secret)]: what the platform sends in the header. *)
Definition sign {R : Runtime} (p : JS.payload) (secret : jsstring) : jsstring :=
  lit "sha256=" ++ createHmac_sha256_hex secret p.

(** An operation that fails [k] times and then succeeds; the world counts
    the invocations, the error is the number of the failed attempt. *)
Definition flaky (k : nat) (w : nat) : (string + nat) * nat :=
  (if (w <? k)%nat then inr (S w) else inl "ok"%string, S w).

(** An operation that always fails. *)
Definition failing (w : nat) : (string + nat) * nat := (inr (S w), S w).

(** Waiting does not change the world of these operations. *)
Definition idle (ms : Z) (w : nat) : nat := w.

End Scenario.

(** The fields a [WebhookEvent] must have ([src/types/index.ts]). *)
Definition structurally_complete (v : json) : bool :=
  forallb (fun k => has_prop (lit k) v)
          ["id"; "type"; "data"; "timestamp"; "version"]%string.

(** The three rejections of the middleware, under the specification's
    names. *)
Definition MissingSignatureError : Outcome := Respond 401 "Missing signature header".
Definition InvalidSignatureError : Outcome := Respond 401 "Invalid signature".
Definition MalformedPayloadError : Outcome := Respond 400 "Invalid webhook payload".

(** The error [verifySignature] throws when it finds no secret. *)
Definition ConfigurationError : XRPLSaleError :=
  mkXRPLSaleError "Webhook secret is required for signature verification".

(** The text [parseWebhook] hands to [JSON.parse]. *)
Definition payload_text {R : Runtime} (p : payload) : jsstring :=
  match p with
  | PString s => s
  | PBuffer b => Buffer_toString b
  end.

Section Decisions.

Context {R : Runtime}.
Variable this : WebhooksService.

(** The middleware's decision as the specification words it (section 4.3,
    steps 1 to 4): a missing header, then a failed verification, then a
    failed parse, else the event. *)
Definition specified_decision (options : option MiddlewareOptions)
    (req : Request) : Outcome :=
  match headers req "x-xrpl-sale-signature" with
  | None => MissingSignatureError
  | Some signature =>
      match verifySignature this (body req) signature (options_secret options) with
      | Return true =>
          match parseWebhook (body req) with
          | Return event => Next event event
          | Throw _ => MalformedPayloadError
          end
      | _ => InvalidSignatureError
      end
  end.

End Decisions.

(** [Number.isSafeInteger(x)]: an integer of magnitude below [2^53], which
    a double holds exactly. *)
Definition safe_integer (x : Z) : bool := (Z.abs x <? 2 ^ 53)%Z.

(** The arguments for which the double [delay * Math.pow(backoff, i)] of
    every wait ([i] below [maxRetries]) is the exact product: the power
    and the product are safe integers, so neither operation rounds. *)
Definition exact_delays (maxRetries delay backoff : Z) : bool :=
  forallb (fun i => safe_integer (backoff ^ i) && safe_integer (delay * backoff ^ i))
          (List.map Z.of_nat (seq 0 (Z.to_nat maxRetries))).

(** The trace of a run of [withRetry] from attempt [i] on.  The run ends
    with an attempt that resolved, or with the failure of attempt
    [maxRetries]; a failed attempt [i] other than [maxRetries] is followed
    by the wait of [delay * backoff ^ i] and by the rest of the run from
    attempt [i + 1]. *)
Inductive backoff_schedule {T E : Type} (maxRetries delay backoff : Z)
  : Z -> list (event T E) -> Prop :=
| schedule_resolved i value :
    backoff_schedule maxRetries delay backoff i [Invoked (inl value)]
| schedule_exhausted error :
    backoff_schedule maxRetries delay backoff maxRetries [Invoked (inr error)]
| schedule_retry i error rest :
    i <> maxRetries ->
    backoff_schedule maxRetries delay backoff (i + 1) rest ->
    backoff_schedule maxRetries delay backoff i
      (Invoked (inr error) :: Waited (delay * backoff ^ i) :: rest).

(* ================================================================== *)
(** * Regular expressions of the validators *)
(* ================================================================== *)

(** The patterns of [src/utils/index.ts] are written [/^...$/] with no
    flag: [test] answers whether the whole input, read as code units,
    belongs to the language of the pattern.  The matcher decides that by
    derivatives. *)
Module RegExp.

(** A class [[...]] or [[^...]]: ranges of code units, both ends included. *)
Record class := { negated : bool; ranges : list (N * N) }.

Definition in_class (c : class) (u : N) : bool :=
  xorb (negated c)
       (existsb (fun r => (fst r <=? u)%N && (u <=? snd r)%N) (ranges c)).

Inductive regex :=
| Never
| Empty
| Chars (c : class)
| Seq (r1 r2 : regex)
| Alt (r1 r2 : regex)
| Star (r : regex).

(** The range [a-b] and the single character [a] of a pattern. *)
Definition range (a b : ascii) : N * N := (N_of_ascii a, N_of_ascii b).
Definition one (a : ascii) : class :=
  {| negated := false; ranges := [range a a] |}.

(** [r+], [r{n}], [r{0,n}] and [r{m,n}]. *)
Definition Plus (r : regex) : regex := Seq r (Star r).

Fixpoint Exactly (n : nat) (r : regex) : regex :=
  match n with
  | O => Empty
  | S k => Seq r (Exactly k r)
  end.

Fixpoint AtMost (n : nat) (r : regex) : regex :=
  match n with
  | O => Empty
  | S k => Alt Empty (Seq r (AtMost k r))
  end.

Definition Between (m n : nat) (r : regex) : regex :=
  Seq (Exactly m r) (AtMost (n - m) r).

(** The strings a pattern matches. *)
Inductive lang : regex -> jsstring -> Prop :=
| lang_empty : lang Empty []
| lang_chars c u : in_class c u = true -> lang (Chars c) [u]
| lang_seq r1 r2 s1 s2 :
    lang r1 s1 -> lang r2 s2 -> lang (Seq r1 r2) (s1 ++ s2)
| lang_alt_l r1 r2 s : lang r1 s -> lang (Alt r1 r2) s
| lang_alt_r r1 r2 s : lang r2 s -> lang (Alt r1 r2) s
| lang_star_nil r : lang (Star r) []
| lang_star_cons r s1 s2 :
    lang r s1 -> lang (Star r) s2 -> lang (Star r) (s1 ++ s2).

Fixpoint nullable (r : regex) : bool :=
  match r with
  | Never => false
  | Empty => true
  | Chars _ => false
  | Seq r1 r2 => nullable r1 && nullable r2
  | Alt r1 r2 => nullable r1 || nullable r2
  | Star _ => true
  end.

(** What may follow the unit [u] in a match of [r]. *)
Fixpoint derivative (u : N) (r : regex) : regex :=
  match r with
  | Never => Never
  | Empty => Never
  | Chars c => if in_class c u then Empty else Never
  | Seq r1 r2 =>
      if nullable r1 then Alt (Seq (derivative u r1) r2) (derivative u r2)
      else Seq (derivative u r1) r2
  | Alt r1 r2 => Alt (derivative u r1) (derivative u r2)
  | Star r1 => Seq (derivative u r1) (Star r1)
  end.

(** [/^r$/.test(s)] *)
Fixpoint test (r : regex) (s : jsstring) : bool :=
  match s with
  | [] => nullable r
  | u :: rest => test (derivative u r) rest
  end.

(** [\s]: white space and line terminators. *)
Definition white_space : list (N * N) :=
  [(9, 13); (32, 32); (160, 160); (0x1680, 0x1680); (0x2000, 0x200A);
   (0x2028, 0x2029); (0x202F, 0x202F); (0x205F, 0x205F); (0x3000, 0x3000);
   (0xFEFF, 0xFEFF)]%N.

End RegExp.

(* ================================================================== *)
(** * [XRPLUtils], [ValidationUtils], [FormatUtils] ([src/utils/index.ts]) *)
(* ================================================================== *)

Module Number.

(** The digits of a decimal numeral. *)
Fixpoint digits (d : Decimal.uint) : jsstring :=
  match d with
  | Decimal.Nil => []
  | Decimal.D0 d' => 48%N :: digits d'
  | Decimal.D1 d' => 49%N :: digits d'
  | Decimal.D2 d' => 50%N :: digits d'
  | Decimal.D3 d' => 51%N :: digits d'
  | Decimal.D4 d' => 52%N :: digits d'
  | Decimal.D5 d' => 53%N :: digits d'
  | Decimal.D6 d' => 54%N :: digits d'
  | Decimal.D7 d' => 55%N :: digits d'
  | Decimal.D8 d' => 56%N :: digits d'
  | Decimal.D9 d' => 57%N :: digits d'
  end.

(** [n.toString()] for a safe integer [n] (below [2^53] in magnitude),
    of which JavaScript prints the exact digits. *)
Definition toString (n : Z) : jsstring :=
  match Z.to_int n with
  | Decimal.Pos d => digits d
  | Decimal.Neg d => 45%N :: digits d
  end.

End Number.

(** [/^r[1-9A-HJ-NP-Za-km-z]{25,34}$/] *)
Definition base58 : RegExp.class :=
  {| RegExp.negated := false;
     RegExp.ranges := [RegExp.range "1" "9"; RegExp.range "A" "H";
                       RegExp.range "J" "N"; RegExp.range "P" "Z";
                       RegExp.range "a" "k"; RegExp.range "m" "z"] |}.

Definition address_pattern : RegExp.regex :=
  RegExp.Seq (RegExp.Chars (RegExp.one "r"))
             (RegExp.Between 25 34 (RegExp.Chars base58)).

(** [XRPLUtils.isValidAddress(address)]; [test] does not throw, so the
    [catch] is never entered. *)
Definition isValidAddress (address : jsstring) : bool :=
  RegExp.test address_pattern address.

(** [/^[^\s@]+@[^\s@]+\.[^\s@]+$/] *)
Definition not_space_or_at : RegExp.class :=
  {| RegExp.negated := true;
     RegExp.ranges := RegExp.white_space ++ [RegExp.range "@" "@"] |}.

Definition emailRegex : RegExp.regex :=
  RegExp.Seq (RegExp.Plus (RegExp.Chars not_space_or_at))
    (RegExp.Seq (RegExp.Chars (RegExp.one "@"))
       (RegExp.Seq (RegExp.Plus (RegExp.Chars not_space_or_at))
          (RegExp.Seq (RegExp.Chars (RegExp.one "."))
             (RegExp.Plus (RegExp.Chars not_space_or_at))))).

(** [ValidationUtils.isValidEmail(email)] *)
Definition isValidEmail (email : jsstring) : bool :=
  RegExp.test emailRegex email.

(** [/^[A-Z][A-Z0-9]{2,9}$/] *)
Definition upper : RegExp.class :=
  {| RegExp.negated := false; RegExp.ranges := [RegExp.range "A" "Z"] |}.
Definition upper_or_digit : RegExp.class :=
  {| RegExp.negated := false;
     RegExp.ranges := [RegExp.range "A" "Z"; RegExp.range "0" "9"] |}.

Definition symbol_pattern : RegExp.regex :=
  RegExp.Seq (RegExp.Chars upper)
             (RegExp.Between 2 9 (RegExp.Chars upper_or_digit)).

(** [ValidationUtils.isValidTokenSymbol(symbol)] *)
Definition isValidTokenSymbol (symbol : jsstring) : bool :=
  RegExp.test symbol_pattern symbol.

(** [FormatUtils.formatDuration(milliseconds)] for a safe integer number
    of milliseconds (below [2^53] in magnitude).  There the rounding of the
    double quotient never reaches the next integer, so [Math.floor(x / n)]
    is the floor division [Z.div]; [%] is the remainder [Z.rem], which
    takes the sign of the dividend. *)
Definition formatDuration (milliseconds : Z) : jsstring :=
  let seconds := (milliseconds / 1000)%Z in
  let minutes := (seconds / 60)%Z in
  let hours := (minutes / 60)%Z in
  let days := (hours / 24)%Z in
  if (0 <? days)%Z then
    Number.toString days ++ lit "d " ++ Number.toString (Z.rem hours 24) ++ lit "h"
  else if (0 <? hours)%Z then
    Number.toString hours ++ lit "h " ++ Number.toString (Z.rem minutes 60) ++ lit "m"
  else if (0 <? minutes)%Z then
    Number.toString minutes ++ lit "m " ++ Number.toString (Z.rem seconds 60) ++ lit "s"
  else Number.toString seconds ++ lit "s".

(* ================================================================== *)
(** * [CryptoUtils.generateUUID] ([src/utils/index.ts]) *)
(* ================================================================== *)

Module Number16.

(** The digits of a hexadecimal numeral, in lower case. *)
Fixpoint digits (d : Hexadecimal.uint) : jsstring :=
  match d with
  | Hexadecimal.Nil => []
  | Hexadecimal.D0 d' => 48%N :: digits d'
  | Hexadecimal.D1 d' => 49%N :: digits d'
  | Hexadecimal.D2 d' => 50%N :: digits d'
  | Hexadecimal.D3 d' => 51%N :: digits d'
  | Hexadecimal.D4 d' => 52%N :: digits d'
  | Hexadecimal.D5 d' => 53%N :: digits d'
  | Hexadecimal.D6 d' => 54%N :: digits d'
  | Hexadecimal.D7 d' => 55%N :: digits d'
  | Hexadecimal.D8 d' => 56%N :: digits d'
  | Hexadecimal.D9 d' => 57%N :: digits d'
  | Hexadecimal.Da d' => 97%N :: digits d'
  | Hexadecimal.Db d' => 98%N :: digits d'
  | Hexadecimal.Dc d' => 99%N :: digits d'
  | Hexadecimal.Dd d' => 100%N :: digits d'
  | Hexadecimal.De d' => 101%N :: digits d'
  | Hexadecimal.Df d' => 102%N :: digits d'
  end.

(** [v.toString(16)] for an integer [v]. *)
Definition toString (v : Z) : jsstring :=
  match Z.to_hex_int v with
  | Hexadecimal.Pos d => digits d
  | Hexadecimal.Neg d => 45%N :: digits d
  end.

End Number16.

(** [x | 0] for an integer [x]: the value is reduced to 32 bits, signed. *)
Definition toInt32 (x : Z) : Z :=
  let m := (x mod 2 ^ 32)%Z in
  if (m <? 2 ^ 31)%Z then m else (m - 2 ^ 32)%Z.

Section Random.

(** [Math.random()] draws from a generator whose state is [G]; a draw is a
    double, that is a rational number (the contract of [Math.random] puts
    it in [[0, 1)]). *)
Variable G : Type.
Variable Math_random : G -> QArith_base.Q * G.

(** [Math.random() * 16 | 0]: multiplying a double by 16 is exact, and
    [| 0] drops the fraction. *)
Definition random16 (g : G) : Z * G :=
  let (x, g') := Math_random g in
  (toInt32 (Z.quot (16 * QArith_base.Qnum x) (Z.pos (QArith_base.Qden x))), g').

(** The function passed to [replace]. *)
Definition replacer (c : N) (g : G) : jsstring * G :=
  let (r, g') := random16 g in
  let v := if (c =? 120)%N then r else Z.lor (Z.land r 0x3) 0x8 in
  (Number16.toString v, g').

(** [template.replace(/[xy]/g, replacer)]: every [x] and [y], from left
    to right, gives way to what the function returns for it. *)
Fixpoint replace_xy (template : jsstring) (g : G) : jsstring * G :=
  match template with
  | [] => ([], g)
  | c :: rest =>
      if (c =? 120)%N || (c =? 121)%N then
        let (s, g1) := replacer c g in
        let (out, g2) := replace_xy rest g1 in
        (s ++ out, g2)
      else
        let (out, g2) := replace_xy rest g in
        (c :: out, g2)
  end.

(** [CryptoUtils.generateUUID()] *)
Definition generateUUID (g : G) : jsstring * G :=
  replace_xy (lit "xxxxxxxx-xxxx-4xxx-yxxx-xxxxxxxxxxxx") g.

End Random.

(** [CryptoUtils.generateRandomString] *)
Section RandomString.

Variable G : Type.

(** [Math.floor(Math.random() * chars.length)].  The product is rounded
    as floating-point products are, so the index is taken as the generator
    gives it; for a draw in [[0, 1)] it lies from 0 to 61. *)
Variable random_index : G -> Z * G.

Definition chars : jsstring :=
  lit "ABCDEFGHIJKLMNOPQRSTUVWXYZabcdefghijklmnopqrstuvwxyz0123456789".

(** [s.charAt(i)]: the empty string when [i] is out of range. *)
Definition charAt (s : jsstring) (i : Z) : jsstring :=
  if (i <? 0)%Z then []
  else match nth_error s (Z.to_nat i) with
       | Some u => [u]
       | None => []
       end.

(** The loop [for (let i = 0; i < length; i++) result += ...], [n] rounds
    of it. *)
Fixpoint random_chars (n : nat) (result : jsstring) (g : G) : jsstring * G :=
  match n with
  | O => (result, g)
  | S k =>
      let (i, g') := random_index g in
      random_chars k (result ++ charAt chars i) g'
  end.

(** [generateRandomString(length)] for an integral [length]. *)
Definition generateRandomString (length : Z) (g : G) : jsstring * G :=
  random_chars (Z.to_nat length) [] g.

End RandomString.

(** [[A-Za-z0-9]] *)
Definition alphanumeric : RegExp.class :=
  {| RegExp.negated := false;
     RegExp.ranges := [RegExp.range "A" "Z"; RegExp.range "a" "z";
                       RegExp.range "0" "9"] |}.

(** The pattern of a version 4 UUID in lower case,
    [/^[0-9a-f]{8}-[0-9a-f]{4}-4[0-9a-f]{3}-[89ab][0-9a-f]{3}-[0-9a-f]{12}$/]. *)
Definition hex_digit : RegExp.class :=
  {| RegExp.negated := false;
     RegExp.ranges := [RegExp.range "0" "9"; RegExp.range "a" "f"] |}.
Definition variant_digit : RegExp.class :=
  {| RegExp.negated := false;
     RegExp.ranges := [RegExp.range "8" "9"; RegExp.range "a" "b"] |}.

Definition uuid_v4 : RegExp.regex :=
  let hex n := RegExp.Exactly n (RegExp.Chars hex_digit) in
  let dash := RegExp.Chars (RegExp.one "-") in
  RegExp.Seq (hex 8) (RegExp.Seq dash
    (RegExp.Seq (hex 4) (RegExp.Seq dash
      (RegExp.Seq (RegExp.Chars (RegExp.one "4")) (RegExp.Seq (hex 3)
        (RegExp.Seq dash
          (RegExp.Seq (RegExp.Chars variant_digit) (RegExp.Seq (hex 3)
            (RegExp.Seq dash (hex 12)))))))))).

(* ================================================================== *)
(** * Query strings of the REST wrappers *)
(* ================================================================== *)

(** [URLSearchParams]: the list of the pairs appended, and its
    serialisation (WHATWG URL, application/x-www-form-urlencoded). *)
Module URLSearchParams.

Definition t := list (jsstring * jsstring).

(** [params.append(name, value)] *)
Definition append (name value : jsstring) (params : t) : t :=
  params ++ [(name, value)].

(** The bytes left as they are: [*], [-], [.], [_], digits and letters. *)
Definition is_unreserved (b : N) : bool :=
  (b =? 0x2A)%N || (b =? 0x2D)%N || (b =? 0x2E)%N || (b =? 0x5F)%N
  || ((0x30 <=? b) && (b <=? 0x39))%N
  || ((0x41 <=? b) && (b <=? 0x5A))%N
  || ((0x61 <=? b) && (b <=? 0x7A))%N.

Definition upper_hex (d : N) : N := if (d <? 10)%N then (48 + d)%N else (55 + d)%N.

(** One byte: a space becomes [+], an unreserved byte stays, any other is
    percent-encoded. *)
Definition serialize_byte (b : N) : jsstring :=
  if (b =? 0x20)%N then [43%N]
  else if is_unreserved b then [b]
  else [37%N; upper_hex (N.shiftr b 4); upper_hex (N.land b 0xF)].

Definition serialize (s : jsstring) : jsstring :=
  flat_map serialize_byte (Node.utf8_encode s).

(** [params.toString()]: [name=value] pairs joined by [&]. *)
Fixpoint toString (params : t) : jsstring :=
  match params with
  | [] => []
  | (name, value) :: rest =>
      serialize name ++ [61%N] ++ serialize value
      ++ match rest with
         | [] => []
         | _ :: _ => 38%N :: toString rest
         end
  end.

(** [if (n) params.append(name, n.toString())] for an optional integral
    number: [undefined] and [0] are falsy. *)
Definition append_number (name : string) (n : option Z) (params : t) : t :=
  match n with
  | Some z => if (z =? 0)%Z then params
              else append (lit name) (Number.toString z) params
  | None => params
  end.

(** [if (s) params.append(name, s)] for an optional string: [undefined]
    and the empty string are falsy. *)
Definition append_string (name : string) (s : option jsstring) (params : t) : t :=
  match s with
  | Some (u :: v) => append (lit name) (u :: v) params
  | _ => params
  end.

End URLSearchParams.

(** [ProjectsService] ([src/services/projects.ts]). *)
Module ProjectsService.

Record ListProjectsOptions := {
  page : option Z;
  limit : option Z;
  status : option jsstring;
  sortBy : option jsstring;
  sortOrder : option jsstring
}.

(** [`/projects?${params.toString()}`] of [list]. *)
Definition list_url (options : ListProjectsOptions) : jsstring :=
  let params : URLSearchParams.t := [] in
  let params := URLSearchParams.append_number "page" (page options) params in
  let params := URLSearchParams.append_number "limit" (limit options) params in
  let params := URLSearchParams.append_string "status" (status options) params in
  let params := URLSearchParams.append_string "sortBy" (sortBy options) params in
  let params := URLSearchParams.append_string "sortOrder" (sortOrder options) params in
  lit "/projects?" ++ URLSearchParams.toString params.

Section Client.

(** [(await this.httpClient.get(url)).data], or the rejection. *)
Variable A : Type.
Variable get : jsstring -> A.

(** [list(options)] *)
Definition list (options : ListProjectsOptions) : A := get (list_url options).

(** [getActive(options)]: [list({ ...options, status: 'active' })] *)
Definition getActive (options : ListProjectsOptions) : A :=
  list {| page := page options; limit := limit options;
          status := Some (lit "active");
          sortBy := sortBy options; sortOrder := sortOrder options |}.

End Client.

End ProjectsService.

(** [InvestmentsService] ([src/services/investments.ts]). *)
Module InvestmentsService.

Record ListInvestmentsOptions := {
  page : option Z;
  limit : option Z;
  projectId : option jsstring;
  investorAccount : option jsstring;
  status : option jsstring;
  sortBy : option jsstring;
  sortOrder : option jsstring
}.

(** [`/investments?${params.toString()}`] of [list]. *)
Definition list_url (options : ListInvestmentsOptions) : jsstring :=
  let params : URLSearchParams.t := [] in
  let params := URLSearchParams.append_number "page" (page options) params in
  let params := URLSearchParams.append_number "limit" (limit options) params in
  let params := URLSearchParams.append_string "projectId" (projectId options) params in
  let params := URLSearchParams.append_string "investorAccount" (investorAccount options) params in
  let params := URLSearchParams.append_string "status" (status options) params in
  let params := URLSearchParams.append_string "sortBy" (sortBy options) params in
  let params := URLSearchParams.append_string "sortOrder" (sortOrder options) params in
  lit "/investments?" ++ URLSearchParams.toString params.

Section Client.

Variable A : Type.
Variable get : jsstring -> A.

(** [list(options)] *)
Definition list (options : ListInvestmentsOptions) : A := get (list_url options).

(** [getByProject(projectId, options)]:
    [list({ ...options, projectId })] *)
Definition getByProject (id : jsstring) (options : ListInvestmentsOptions) : A :=
  list {| page := page options; limit := limit options;
          projectId := Some id;
          investorAccount := investorAccount options;
          status := status options;
          sortBy := sortBy options; sortOrder := sortOrder options |}.

(** [getByInvestor(investorAccount, options)]:
    [list({ ...options, investorAccount })] *)
Definition getByInvestor (account : jsstring) (options : ListInvestmentsOptions) : A :=
  list {| page := page options; limit := limit options;
          projectId := projectId options;
          investorAccount := Some account;
          status := status options;
          sortBy := sortBy options; sortOrder := sortOrder options |}.

End Client.

End InvestmentsService.

(** [WebhooksService.getDeliveries] ([src/services/webhooks.ts]). *)
Module Deliveries.

Record Options := {
  page : option Z;
  limit : option Z;
  status : option jsstring
}.

(** [options?.field]: [options] itself may be left out. *)
Definition field {B : Type} (options : option Options)
    (f : Options -> option B) : option B :=
  match options with
  | Some o => f o
  | None => None
  end.

(** [`/webhooks/${webhookId}/deliveries?${params.toString()}`] *)
Definition url (webhookId : jsstring) (options : option Options) : jsstring :=
  let params : URLSearchParams.t := [] in
  let params := URLSearchParams.append_number "page" (field options page) params in
  let params := URLSearchParams.append_number "limit" (field options limit) params in
  let params := URLSearchParams.append_string "status" (field options status) params in
  lit "/webhooks/" ++ webhookId ++ lit "/deliveries?"
  ++ URLSearchParams.toString params.

(** [getDeliveries(webhookId, options)] *)
Definition getDeliveries {A : Type} (get : jsstring -> A)
    (webhookId : jsstring) (options : option Options) : A :=
  get (url webhookId options).

End Deliveries.

(** A string of JavaScript: every code unit is below [2^16]. *)
Definition well_formed (s : jsstring) : Prop := Forall (fun u => (u < 2 ^ 16)%N) s.

Definition well_formed_option (s : option jsstring) : Prop :=
  match s with
  | Some v => well_formed v
  | None => True
  end.

(** The pairs of a parameter list are strings of JavaScript. *)
Definition well_formed_params (ps : URLSearchParams.t) : Prop :=
  Forall (fun nv => well_formed (fst nv) /\ well_formed (snd nv)) ps.

(** The characters a serialised name or value can hold: unreserved ones,
    [+] and [%]. *)
Definition value_char (u : N) : bool :=
  URLSearchParams.is_unreserved u || (u =? 43)%N || (u =? 37)%N.

(** The characters [params.toString()] can hold: those, and the
    separators [=] and [&]. *)
Definition query_char (u : N) : bool :=
  value_char u || (u =? 61)%N || (u =? 38)%N.

(** How many parameters an optional number and an optional string give:
    one when truthy, none when falsy. *)
Definition sent_number (n : option Z) : nat :=
  match n with
  | Some z => if (z =? 0)%Z then 0 else 1
  | None => 0
  end.

Definition sent_string (s : option jsstring) : nat :=
  match s with
  | Some (_ :: _) => 1
  | _ => 0
  end.

(** The number of parameters each listing sends. *)
Definition projects_sent (o : ProjectsService.ListProjectsOptions) : nat :=
  sent_number (ProjectsService.page o) + sent_number (ProjectsService.limit o)
  + sent_string (ProjectsService.status o)
  + sent_string (ProjectsService.sortBy o)
  + sent_string (ProjectsService.sortOrder o).

Definition investments_sent (o : InvestmentsService.ListInvestmentsOptions) : nat :=
  sent_number (InvestmentsService.page o)
  + sent_number (InvestmentsService.limit o)
  + sent_string (InvestmentsService.projectId o)
  + sent_string (InvestmentsService.investorAccount o)
  + sent_string (InvestmentsService.status o)
  + sent_string (InvestmentsService.sortBy o)
  + sent_string (InvestmentsService.sortOrder o).

Definition deliveries_sent (o : option Deliveries.Options) : nat :=
  sent_number (Deliveries.field o Deliveries.page)
  + sent_number (Deliveries.field o Deliveries.limit)
  + sent_string (Deliveries.field o Deliveries.status).

(** A query string that carries [n] parameters: safe characters only, one
    [=] per parameter, one [&] between two parameters, and nothing at all
    when [n] is zero. *)
Definition query_of (n : nat) (q : jsstring) : Prop :=
  Forall (fun u => query_char u = true) q
  /\ count_occ N.eq_dec q 61%N = n
  /\ count_occ N.eq_dec q 38%N = n - 1
  /\ (q = [] <-> n = 0).

(** How the receiver of a request reads its query string back
    (application/x-www-form-urlencoded parsing, before the percent
    decoding): the text is cut at every [&], empty pieces are skipped, and
    each piece is cut at its first [=] into a name and a value. *)
Module Query.

(** [s.split(sep)] for a one-character separator. *)
Fixpoint split (sep : N) (s : jsstring) : list jsstring :=
  match s with
  | [] => [[]]
  | u :: rest =>
      if (u =? sep)%N then [] :: split sep rest
      else match split sep rest with
           | piece :: pieces => (u :: piece) :: pieces
           | [] => [[u]]
           end
  end.

(** The text before the first [sep] and the text after it. *)
Fixpoint cut (sep : N) (s : jsstring) : jsstring * jsstring :=
  match s with
  | [] => ([], [])
  | u :: rest =>
      if (u =? sep)%N then ([], rest)
      else let (name, value) := cut sep rest in (u :: name, value)
  end.

(** The name and the value of every piece that is not empty. *)
Definition pairs (pieces : list jsstring) : list (jsstring * jsstring) :=
  List.map (cut 61)
    (filter (fun piece => match piece with [] => false | _ :: _ => true end)
            pieces).

Definition parameters (q : jsstring) : list (jsstring * jsstring) :=
  pairs (split 38 q).

(** The parameters of a given name. *)
Definition named (name : string) (ps : list (jsstring * jsstring))
  : list (jsstring * jsstring) :=
  filter (fun nv => jsstring_eqb (fst nv) (lit name)) ps.

End Query.

(** What the receiver reads for an optional number and an optional
    string: nothing when falsy, else the one parameter of that name, with
    the digits of the number or the serialised string. *)
Definition number_parameter (name : string) (n : option Z)
  : list (jsstring * jsstring) :=
  match n with
  | Some z => if (z =? 0)%Z then [] else [(lit name, Number.toString z)]
  | None => []
  end.

Definition string_parameter (name : string) (s : option jsstring)
  : list (jsstring * jsstring) :=
  match s with
  | Some (u :: v) => [(lit name, URLSearchParams.serialize (u :: v))]
  | _ => []
  end.

(** An optional number that, when given, is a safe integer. *)
Definition safe_option (n : option Z) : bool :=
  match n with
  | Some z => safe_integer z
  | None => true
  end.

(* ================================================================== *)
(** * [XRPLSaleClient] ([src/client.ts]) *)
(* ================================================================== *)

Module Client.

Record XRPLSaleConfig := {
  apiKey : jsstring;
  environment : option jsstring;
  timeout : option Z;
  debug : option bool;
  webhookSecret : option jsstring
}.

(** The two errors the constructor throws, each an [XRPLSaleError] with
    the message below and no status code. *)
Inductive ConstructorError :=
| ApiKeyRequired
| UnknownEnvironment (environment : jsstring).

Definition error_message (e : ConstructorError) : jsstring :=
  match e with
  | ApiKeyRequired => lit "API key is required"
  | UnknownEnvironment environment => lit "Unknown environment: " ++ environment
  end.

(** [getBaseURL(environment)] *)
Definition getBaseURL (environment : jsstring) : ConstructorError + jsstring :=
  if jsstring_eqb environment (lit "production") then
    inr (lit "https://xrpl.sale/api")
  else if jsstring_eqb environment (lit "testnet") then
    inr (lit "https://testnet.xrpl.sale/api")
  else inl (UnknownEnvironment environment).

(** What [axios.create] is given. *)
Record AxiosConfig := {
  baseURL : jsstring;
  headers : list (string * jsstring);
  axios_timeout : Z
}.

(** The client: its HTTP configuration, whether requests are logged, and
    the webhook service (the other services hold the HTTP client only). *)
Record XRPLSaleClient := {
  httpClient : AxiosConfig;
  logs_requests : bool;
  webhooks : WebhooksService
}.

(** [a || b] on optional strings and numbers. *)
Definition or_string (a : option jsstring) (b : jsstring) : jsstring :=
  match a with
  | Some (u :: s) => u :: s
  | _ => b
  end.

Definition or_number (a : option Z) (b : Z) : Z :=
  match a with
  | Some z => if (z =? 0)%Z then b else z
  | None => b
  end.

(** [new XRPLSaleClient(config)] *)
Definition constructor (config : XRPLSaleConfig) : ConstructorError + XRPLSaleClient :=
  match apiKey config with
  | [] => inl ApiKeyRequired
  | _ :: _ =>
      match getBaseURL (or_string (environment config) (lit "production")) with
      | inl e => inl e
      | inr url =>
          inr {| httpClient :=
                   {| baseURL := url;
                      headers :=
                        [("Authorization"%string, lit "Bearer " ++ apiKey config);
                         ("Content-Type"%string, lit "application/json");
                         ("User-Agent"%string, lit "xrpl-sale-js-sdk/1.0.0")];
                      axios_timeout := or_number (timeout config) 30000 |};
                 logs_requests := match debug config with
                                  | Some true => true
                                  | _ => false
                                  end;
                 webhooks := Build_WebhooksService (webhookSecret config) |}
      end
  end.

End Client.


(** The sum of a list of delays. *)
Definition total (l : list Z) : Z := fold_right Z.add 0%Z l.

(* ================================================================== *)
(** * Properties of [safeCompare] *)
(* ================================================================== *)

Lemma jsstring_eqb_eq (a b : jsstring) : jsstring_eqb a b = true <-> a = b.
Proof.
  unfold jsstring_eqb. destruct (list_eq_dec N.eq_dec a b); split;
    congruence.
Qed.

(** An accumulated OR is zero exactly when it started at zero and every
    operand was zero. *)
Lemma fold_lor_eq_0 (f : nat -> N) (l : list nat) (r : N) :
  fold_left (fun acc i => N.lor acc (f i)) l r = 0%N
  <-> r = 0%N /\ forall i, In i l -> f i = 0%N.
Proof.
  revert r. induction l as [|j l IH]; intros r; simpl.
  - split; [intros ->; split; [reflexivity | intros i []] | tauto].
  - rewrite IH, N.lor_eq_0_iff. split.
    + intros [[Hr Hj] Hl]. split; [exact Hr |].
      intros i [<- | Hi]; auto.
    + intros [Hr Hl]. repeat split; auto.
Qed.

Lemma fold_left_shift (A : Type) (g : A -> nat -> A) (l : list nat) (r : A) :
  fold_left g (List.map S l) r = fold_left (fun acc i => g acc (S i)) l r.
Proof.
  revert r. induction l as [|j l IH]; intros r; simpl; [reflexivity | apply IH].
Qed.

(** The loop over the indices is the OR of the XORs of the paired units. *)
Lemma fold_indices_combine (a b : jsstring) (r : N) :
  List.length a = List.length b ->
  fold_left (fun acc i => N.lor acc (N.lxor (charCodeAt a i) (charCodeAt b i)))
            (seq 0 (List.length a)) r
  = fold_left N.lor (List.map (fun p => N.lxor (fst p) (snd p)) (combine a b)) r.
Proof.
  revert b r. induction a as [|x a IH]; intros [|y b] r Hlen;
    simpl in Hlen; try discriminate; [reflexivity |].
  injection Hlen as Hlen. cbn [List.length seq combine List.map fold_left fst snd].
  rewrite <- seq_shift, fold_left_shift.
  unfold charCodeAt at 1 2. cbn [nth].
  exact (IH b _ Hlen).
Qed.

Lemma safeCompare_true_iff (a b : jsstring) : safeCompare a b = true <-> a = b.
Proof.
  unfold safeCompare, JS.length.
  destruct (Nat.eqb_spec (List.length a) (List.length b)) as [Hlen | Hlen];
    cbn [negb].
  - rewrite N.eqb_eq, fold_lor_eq_0. split.
    + intros [_ H]. apply (nth_ext a b 0%N 0%N Hlen).
      intros i Hi. apply N.lxor_eq, H, in_seq. lia.
    + intros ->. split; [reflexivity |]. intros i _. apply N.lxor_nilpotent.
  - split; [discriminate | intros ->; contradiction].
Qed.

Lemma safeCompare_refl (a : jsstring) : safeCompare a a = true.
Proof. apply safeCompare_true_iff. reflexivity. Qed.

Lemma safeCompare_eqb (a b : jsstring) : safeCompare a b = jsstring_eqb a b.
Proof.
  apply eq_true_iff_eq. rewrite safeCompare_true_iff, jsstring_eqb_eq. tauto.
Qed.

(** The accumulator never leaves the 16 bits of the code units, so the
    32-bit operators of the source cannot wrap. *)
Lemma safeCompare_accumulator_bound (a b : jsstring) (l : list nat) (r : N) :
  Forall (fun u => (u < 2 ^ 16)%N) a ->
  Forall (fun u => (u < 2 ^ 16)%N) b ->
  (r < 2 ^ 16)%N ->
  (fold_left (fun acc i => N.lor acc (N.lxor (charCodeAt a i) (charCodeAt b i)))
             l r < 2 ^ 16)%N.
Proof.
  intros Ha Hb. revert r. induction l as [|j l IH]; intros r Hr; simpl;
    [exact Hr |].
  assert (Hnth : forall s, Forall (fun u => (u < 2 ^ 16)%N) s ->
                           (charCodeAt s j < 2 ^ 16)%N).
  { intros s Hs. unfold charCodeAt.
    destruct (Nat.lt_ge_cases j (List.length s)) as [Hj | Hj].
    - rewrite Forall_forall in Hs. apply Hs, nth_In, Hj.
    - rewrite nth_overflow by exact Hj. reflexivity. }
  apply IH.
  assert (Hlow : forall x, (x < 2 ^ 16)%N <-> N.shiftr x 16 = 0%N).
  { intros x. rewrite N.shiftr_div_pow2. split; intros H.
    - apply N.div_small, H.
    - apply N.div_small_iff in H; [exact H | discriminate]. }
  apply Hlow. rewrite N.shiftr_lor, N.shiftr_lxor.
  apply Hlow in Hr. rewrite Hr.
  rewrite (proj1 (Hlow _) (Hnth a Ha)), (proj1 (Hlow _) (Hnth b Hb)).
  reflexivity.
Qed.

(** C4.  [safeCompare] answers [false] when the two lengths differ; on
    strings of equal length its answer is whether the OR of the XORs of the
    corresponding code units is zero, which holds exactly when the strings
    are equal. *)
Theorem safeCompare_correct (a b : jsstring) :
  (JS.length a <> JS.length b -> safeCompare a b = false)
  /\ (JS.length a = JS.length b ->
      safeCompare a b
      = N.eqb (fold_left N.lor
                 (List.map (fun p => N.lxor (fst p) (snd p)) (combine a b)) 0%N)
              0%N
      /\ (safeCompare a b = true <-> a = b)).
Proof.
  split.
  - intros Hlen. unfold safeCompare.
    destruct (Nat.eqb_spec (JS.length a) (JS.length b)); [contradiction |].
    reflexivity.
  - intros Hlen. split; [| apply safeCompare_true_iff].
    unfold safeCompare. rewrite Hlen, Nat.eqb_refl. cbn [negb].
    rewrite <- Hlen. unfold JS.length in *.
    rewrite fold_indices_combine by exact Hlen. reflexivity.
Qed.

Lemma safeCompare_correct_witness :
  safeCompare (lit "sha256=ab") (lit "sha256=abc") = false
  /\ (safeCompare (lit "sha256=ab") (lit "sha256=ac") = true
      <-> lit "sha256=ab" = lit "sha256=ac").
Proof.
  split.
  - apply (proj1 (safeCompare_correct (lit "sha256=ab") (lit "sha256=abc"))).
    vm_compute. discriminate.
  - apply (proj2 (safeCompare_correct (lit "sha256=ab") (lit "sha256=ac"))).
    reflexivity.
Defined.

(* ================================================================== *)
(** * Properties of [verifySignature] *)
(* ================================================================== *)

Section VerifySignature.

Context {R : Runtime}.
Variable this : WebhooksService.

Lemma falsy_false_iff (s : option jsstring) :
  falsy s = false <-> exists v, s = Some v /\ v <> [].
Proof.
  destruct s as [[|u v]|]; simpl; split; try discriminate.
  - intros (v & [= <-] & Hv). contradiction.
  - intros _. exists (u :: v). split; [reflexivity | discriminate].
  - intros (v' & _ & _). reflexivity.
  - intros (v & [=] & _).
Qed.

(** Past the guard the key is the per-call secret when it is a non-empty
    string, and the configured one otherwise. *)
Lemma secretToUse_given (s : jsstring) :
  s <> [] -> secretToUse this (Some s) = s.
Proof. destruct s; [contradiction | reflexivity]. Qed.

Lemma secretToUse_default (secret : option jsstring) (d : jsstring) :
  falsy secret = true -> webhookSecret this = Some d ->
  secretToUse this secret = d.
Proof.
  intros Hs Hd. unfold secretToUse. rewrite Hd.
  destruct secret as [[|u v]|]; [reflexivity | discriminate | reflexivity].
Qed.

(** Past the guard the key is never the empty string. *)
Lemma secretToUse_nonempty (secret : option jsstring) :
  falsy secret && falsy (webhookSecret this) = false ->
  secretToUse this secret <> [].
Proof.
  unfold secretToUse.
  destruct secret as [[|u v]|]; destruct (webhookSecret this) as [[|u' v']|];
    cbn; intros H; discriminate.
Qed.

(** [verifySignature] compares with string equality. *)
Lemma verifySignature_unfold (payload : payload) (signature : jsstring)
    (secret : option jsstring) :
  verifySignature this payload signature secret
  = if falsy secret && falsy (webhookSecret this) then Throw ConfigurationError
    else Return (jsstring_eqb
                   (lit "sha256=" ++
                    createHmac_sha256_hex (secretToUse this secret) payload)
                   signature).
Proof.
  unfold verifySignature. rewrite safeCompare_eqb. reflexivity.
Qed.

(** C3 (amended).  For every payload and every non-empty secret, the
    signature ["sha256=" + hex(HMAC-SHA256(secret, payload))] verifies
    against the same payload and secret: [verifySignature] returns
    [true], whatever default secret the service holds. *)
Theorem sign_then_verify (payload : payload) (secret : jsstring) :
  secret <> [] ->
  verifySignature this payload (Scenario.sign payload secret) (Some secret)
  = Return true.
Proof.
  intros Hs. unfold verifySignature, Scenario.sign.
  destruct secret as [|u v]; [contradiction |].
  cbn [falsy andb secretToUse]. rewrite safeCompare_refl. reflexivity.
Qed.

(** The same round trip through the configured default secret. *)
Lemma sign_then_verify_default (payload : payload) (d : jsstring) :
  d <> [] -> webhookSecret this = Some d ->
  verifySignature this payload (Scenario.sign payload d) None = Return true.
Proof.
  intros Hd Hw. unfold verifySignature, Scenario.sign.
  rewrite (secretToUse_default None eq_refl Hw).
  rewrite Hw. destruct d; [contradiction |].
  cbn [falsy andb]. rewrite safeCompare_refl. reflexivity.
Qed.

(** C7 (amended).  [verifySignature] throws, and then its error is the
    missing-secret one, exactly when neither the per-call secret nor the
    configured default is a non-empty string; exactly when one of them is
    a non-empty string it returns a boolean, the comparison of the
    expected signature with the given one. *)
Theorem verifySignature_throws_iff (payload : payload) (signature : jsstring)
    (secret : option jsstring) :
  let available :=
    exists s, s <> [] /\ (secret = Some s \/ webhookSecret this = Some s) in
  (verifySignature this payload signature secret = Throw ConfigurationError
   <-> ~ available)
  /\ (verifySignature this payload signature secret
      = Return (safeCompare
                  (lit "sha256=" ++
                   createHmac_sha256_hex (secretToUse this secret) payload)
                  signature)
      <-> available)
  /\ (forall e, verifySignature this payload signature secret = Throw e ->
                e = ConfigurationError).
Proof.
  intros available.
  assert (Hav : available <->
                falsy secret && falsy (webhookSecret this) = false).
  { unfold available. rewrite andb_false_iff, !falsy_false_iff. split.
    - intros (s & Hs & [H | H]); [left | right]; exists s; auto.
    - intros [(s & H & Hs) | (s & H & Hs)]; exists s; auto. }
  unfold verifySignature.
  destruct (falsy secret && falsy (webhookSecret this)) eqn:Hguard.
  - assert (Hno : ~ available) by (rewrite Hav; discriminate).
    split; [| split].
    + split; [intros _; exact Hno | reflexivity].
    + split; [discriminate | intros Ha; contradiction].
    + intros e [= <-]. reflexivity.
  - assert (Hyes : available) by (apply Hav; reflexivity).
    split; [| split].
    + split; [discriminate | intros Hno; contradiction].
    + split; [intros _; exact Hyes | reflexivity].
    + discriminate.
Qed.

End VerifySignature.

Lemma sign_then_verify_witness :
  verifySignature (R := Node.runtime) Scenario.unconfigured Scenario.payload
    (Scenario.sign (R := Node.runtime) Scenario.payload (lit "whsec_test"))
    (Some (lit "whsec_test"))
  = Return true.
Proof.
  apply (sign_then_verify (R := Node.runtime)). discriminate.
Defined.

(** C3, as stated, fails at the empty secret: the signature made with the
    key [""] does not verify against the same payload and secret on a
    service with no default; [verifySignature] throws. *)
Lemma sign_then_verify_empty_secret :
  verifySignature (R := Node.runtime) Scenario.unconfigured (PString (lit "x"))
    (Scenario.sign (R := Node.runtime) (PString (lit "x")) []) (Some [])
  = Throw ConfigurationError.
Proof. reflexivity. Qed.

(** ... and with a default configured it answers [false], having compared
    against the default's signature. *)
Example sign_then_verify_empty_secret_default :
  verifySignature (R := Node.runtime) Scenario.service (PString (lit "x"))
    (Scenario.sign (R := Node.runtime) (PString (lit "x")) []) (Some [])
  = Return false.
Proof. vm_compute. reflexivity. Qed.

(** C7, as stated, fails when the per-call secret that is given is the
    empty string (and no default is configured): a secret argument is
    given, and [verifySignature] throws. *)
Lemma verifySignature_given_empty_secret_throws :
  Some ([] : jsstring) <> None
  /\ verifySignature (R := Node.runtime) Scenario.unconfigured
       Scenario.payload (lit "sha256=00") (Some [])
     = Throw ConfigurationError.
Proof. split; [discriminate | reflexivity]. Qed.

Lemma verifySignature_throws_iff_witness :
  verifySignature (R := Node.runtime) Scenario.service Scenario.payload
    (lit "sha256=00") None
  = Return (safeCompare
              (lit "sha256=" ++
               createHmac_sha256_hex (Runtime := Node.runtime)
                 (secretToUse Scenario.service None) Scenario.payload)
              (lit "sha256=00")).
Proof.
  apply (proj1 (proj2 (verifySignature_throws_iff (R := Node.runtime)
                         Scenario.service Scenario.payload
                         (lit "sha256=00") None))).
  exists (lit "whsec_test"). split; [discriminate | right; reflexivity].
Defined.

(** C9.  The empty string as per-call secret is treated as no secret:
    [verifySignature] behaves as when the argument is omitted; with a
    non-empty default configured it compares against the HMAC keyed by the
    default, and with none it throws the missing-secret error (no HMAC
    keyed by the empty string is involved). *)
Theorem verifySignature_empty_secret_is_absent {R : Runtime}
    (this : WebhooksService) (payload : payload) (signature : jsstring)
    (u : N) (d : jsstring) :
  verifySignature this payload signature (Some [])
  = verifySignature this payload signature None
  /\ verifySignature {| webhookSecret := Some (u :: d) |} payload signature (Some [])
     = Return (safeCompare
                 (lit "sha256=" ++ createHmac_sha256_hex (u :: d) payload)
                 signature)
  /\ verifySignature {| webhookSecret := None |} payload signature (Some [])
     = Throw ConfigurationError.
Proof. repeat split; reflexivity. Qed.

(* ================================================================== *)
(** * Properties of [parseWebhook] *)
(* ================================================================== *)

(** C8 (amended).  [parseWebhook] throws, and then its error is the
    "Invalid webhook payload" one, exactly when [JSON.parse] rejects the
    payload's text; otherwise it returns the value [JSON.parse] produced,
    as it is: no field of the event is looked for. *)
Theorem parseWebhook_throws_iff {R : Runtime} (payload : payload) :
  (parseWebhook payload = Throw (mkXRPLSaleError "Invalid webhook payload")
   <-> JSON_parse (payload_text payload) = None)
  /\ (forall event, parseWebhook payload = Return event
                    <-> JSON_parse (payload_text payload) = Some event)
  /\ (forall e, parseWebhook payload = Throw e ->
                e = mkXRPLSaleError "Invalid webhook payload").
Proof.
  unfold parseWebhook, payload_text.
  destruct (JSON_parse _) as [event |]; repeat split;
    try discriminate; try congruence.
Qed.

(** C8, as stated, fails on the payload [{}]: it decodes, no required field
    is present, and [parseWebhook] returns the empty object. *)
Lemma parseWebhook_accepts_incomplete_event :
  parseWebhook (R := Node.runtime) (PString (lit "{}")) = Return (JObject [])
  /\ structurally_complete (JObject []) = false.
Proof. split; reflexivity. Qed.

(** A payload that is not an object at all is accepted too. *)
Example parseWebhook_accepts_number :
  parseWebhook (R := Node.runtime) (PString (lit "42")) = Return (JNumber (lit "42")).
Proof. reflexivity. Qed.

(** Invalid UTF-8 inside a string literal of a [Buffer] payload does not
    make decoding fail: the byte becomes U+FFFD. *)
Example parseWebhook_accepts_invalid_utf8 :
  parseWebhook (R := Node.runtime) (PBuffer [x22; xff; x22])
  = Return (JString [0xFFFD%N]).
Proof. reflexivity. Qed.

Example parseWebhook_scenario :
  parseWebhook (R := Node.runtime) Scenario.payload = Return Scenario.event
  /\ structurally_complete Scenario.event = true.
Proof. split; vm_compute; reflexivity. Qed.

(* ================================================================== *)
(** * Properties of [middleware] *)
(* ================================================================== *)

Lemma jsstring_eqb_sym (a b : jsstring) : jsstring_eqb a b = jsstring_eqb b a.
Proof.
  apply eq_true_iff_eq. rewrite !jsstring_eqb_eq. split; congruence.
Qed.

(** C1 (amended).  With signature verification enabled the middleware
    decides in this order: a header that is absent or empty is answered 401
    "Missing signature header"; else, when neither the override secret nor
    the configured one is a non-empty string, 400 with the missing-secret
    message; else a header that differs from the expected signature is
    answered 401 "Invalid signature"; else a body that [JSON.parse] rejects
    is answered 400 "Invalid webhook payload"; else the parsed event is
    attached to the request and the host continues. *)
Theorem middleware_decision_order {R : Runtime} (this : WebhooksService)
    (options : option MiddlewareOptions) (req : Request) :
  verification_enabled options = true ->
  middleware this options req
  = match headers req "x-xrpl-sale-signature" with
    | None | Some [] => Respond 401 "Missing signature header"
    | Some signature =>
        if falsy (options_secret options) && falsy (webhookSecret this) then
          Respond 400 "Webhook secret is required for signature verification"
        else if jsstring_eqb signature
                  (lit "sha256=" ++
                   createHmac_sha256_hex
                     (secretToUse this (options_secret options)) (body req))
        then match JSON_parse (payload_text (body req)) with
             | Some event => Next event event
             | None => Respond 400 "Invalid webhook payload"
             end
        else Respond 401 "Invalid signature"
    end.
Proof.
  intros Henabled. unfold middleware. rewrite Henabled.
  destruct (headers req "x-xrpl-sale-signature") as [[|u s]|];
    try reflexivity.
  rewrite verifySignature_unfold.
  destruct (falsy (options_secret options) && falsy (webhookSecret this));
    [reflexivity |].
  rewrite jsstring_eqb_sym.
  destruct (jsstring_eqb (u :: s) _); [| reflexivity].
  unfold parse_and_continue, parseWebhook, payload_text.
  destruct (JSON_parse _); reflexivity.
Qed.

(** Specification, section 8, scenario "valid webhook". *)
Lemma middleware_decision_order_witness :
  middleware (R := Node.runtime) Scenario.service None
    (Scenario.request Scenario.payload
       (Some (Scenario.sign (R := Node.runtime) Scenario.payload (lit "whsec_test"))))
  = Next Scenario.event Scenario.event.
Proof.
  rewrite (middleware_decision_order (R := Node.runtime)) by reflexivity.
  vm_compute. reflexivity.
Defined.

(** C1, as stated, fails on a request that carries a signature header when
    no secret is configured and none is passed: verification does not pass,
    and the answer is not the 401 of an invalid signature but 400, with the
    message of the error [verifySignature] threw. *)
Lemma middleware_missing_secret_is_400 :
  verification_enabled None = true
  /\ headers (Scenario.request Scenario.payload (Some (lit "sha256=00")))
       "x-xrpl-sale-signature" = Some (lit "sha256=00")
  /\ middleware (R := Node.runtime) Scenario.unconfigured None
       (Scenario.request Scenario.payload (Some (lit "sha256=00")))
     = Respond 400 "Webhook secret is required for signature verification"
  /\ specified_decision (R := Node.runtime) Scenario.unconfigured None
       (Scenario.request Scenario.payload (Some (lit "sha256=00")))
     = Respond 401 "Invalid signature".
Proof. repeat split. Qed.

(** A header that is present and empty counts as missing. *)
Example middleware_empty_header :
  middleware (R := Node.runtime) Scenario.service None
    (Scenario.request Scenario.payload (Some []))
  = Respond 401 "Missing signature header".
Proof. reflexivity. Qed.

(** Specification, section 8, scenario "missing header". *)
Example middleware_scenario_missing_header :
  middleware (R := Node.runtime) Scenario.service None
    (Scenario.request Scenario.payload None)
  = MissingSignatureError.
Proof. reflexivity. Qed.

(** Specification, section 8, scenario "malformed body". *)
Example middleware_scenario_malformed_body :
  let body := PString (lit "not-json") in
  verifySignature (R := Node.runtime) Scenario.service body
    (Scenario.sign (R := Node.runtime) body (lit "whsec_test")) None
  = Return true
  /\ middleware (R := Node.runtime) Scenario.service None
       (Scenario.request body
          (Some (Scenario.sign (R := Node.runtime) body (lit "whsec_test"))))
     = MalformedPayloadError.
Proof. split; vm_compute; reflexivity. Qed.

(** A tampered signature is rejected. *)
Example middleware_scenario_invalid_signature :
  middleware (R := Node.runtime) Scenario.service None
    (Scenario.request Scenario.payload
       (Some (lit "sha256=18db97f5ded002c649fe0dfdaf93ecd89f48c5761279673a71eaf9627c14fadb")))
  = InvalidSignatureError.
Proof. vm_compute. reflexivity. Qed.

(** X18.  With verification switched off ([verifySignature: false]) the
    middleware reads neither the signature header nor any secret: only the
    parse decides, a body that [JSON.parse] accepts is handed on and any
    other is answered 400 "Invalid webhook payload". *)
Lemma middleware_unverified {R : Runtime} (this : WebhooksService)
    (options : option MiddlewareOptions) (req : Request) :
  verification_enabled options = false ->
  middleware this options req
  = match JSON_parse (payload_text (body req)) with
    | Some event => Next event event
    | None => MalformedPayloadError
    end.
Proof.
  intros Hoff. unfold middleware. rewrite Hoff.
  unfold parse_and_continue, parseWebhook, payload_text.
  destruct (JSON_parse _); reflexivity.
Qed.

(* ================================================================== *)
(** * Properties of [withRetry] *)
(* ================================================================== *)

Section RetryProperties.

Variables W T E : Type.
Variable undefined : E.
Variable fn : W -> (T + E) * W.
Variable sleep : Z -> W -> W.

#[local] Abbreviation state := (state W T E).

Lemma invocations_app (a b : list (event T E)) :
  invocations (a ++ b) = invocations a + invocations b.
Proof. unfold invocations. rewrite filter_app, length_app. reflexivity. Qed.

Lemma waits_app (a b : list (event T E)) : waits (a ++ b) = waits a ++ waits b.
Proof. unfold waits. apply flat_map_app. Qed.

(** One invocation runs the operation on the current world and logs how
    it settled. *)
Lemma invoke_spec (s : state) :
  invoke fn s
  = (fst (fn (world s)),
     {| world := snd (fn (world s));
        trace := trace s ++ [Invoked (fst (fn (world s)))] |}).
Proof. unfold invoke. destruct (fn (world s)); reflexivity. Qed.

Section Loop.

Variables maxRetries delay backoff : Z.

#[local] Abbreviation loop := (attempts fn sleep maxRetries delay backoff).

(** The loop only ever appends to the trace, and what it appends from
    the value [i] on, over the values up to [maxRetries], follows the
    backoff schedule. *)
Lemma attempts_schedule (n i : nat) (lastError : E) (s : state) :
  Z.of_nat (i + n) = (maxRetries + 1)%Z -> n <> 0 ->
  exists tr,
    trace (snd (loop (List.map Z.of_nat (seq i n)) lastError s))
    = trace s ++ tr
    /\ backoff_schedule maxRetries delay backoff (Z.of_nat i) tr.
Proof.
  revert i lastError s.
  induction n as [|n IH]; intros i lastError s Hlast Hn; [contradiction |].
  cbn [seq List.map attempts]. rewrite invoke_spec.
  destruct (fst (fn (world s))) as [value | error].
  - eexists. split; [reflexivity | apply schedule_resolved].
  - destruct (Z.eqb_spec (Z.of_nat i) maxRetries) as [Heq | Hneq].
    + eexists. split; [reflexivity |]. rewrite Heq. apply schedule_exhausted.
    + destruct (IH (S i) error
                  (setTimeout sleep (delay * backoff ^ Z.of_nat i)
                     {| world := snd (fn (world s));
                        trace := trace s ++ [Invoked (inr error)] |}))
        as (tr & Htr & Hsched); [lia | lia |].
      exists (Invoked (inr error)
              :: Waited (delay * backoff ^ Z.of_nat i) :: tr).
      split.
      * rewrite Htr. cbn [setTimeout trace].
        rewrite <- !app_assoc. reflexivity.
      * apply schedule_retry; [exact Hneq |].
        rewrite Nat2Z.inj_succ, <- Z.add_1_r in Hsched. exact Hsched.
Qed.


(** The loop never removes an invocation from the trace. *)
Lemma attempts_invocations_mono (ixs : list Z) (lastError : E) (s : state) :
  invocations (trace s)
  <= invocations (trace (snd (loop ixs lastError s))).
Proof.
  revert lastError s. induction ixs as [|i ixs IH]; intros lastError s;
    cbn [attempts]; [apply Nat.le_refl |].
  rewrite invoke_spec.
  destruct (fst (fn (world s))) as [value | error].
  - cbn [snd trace]. rewrite invocations_app. lia.
  - destruct (i =? maxRetries)%Z.
    + cbn [snd trace]. rewrite invocations_app. lia.
    + eapply Nat.le_trans; [| apply IH].
      cbn [setTimeout trace]. rewrite !invocations_app. lia.
Qed.


End Loop.


(** The waits of a scheduled trace are the successive powers. *)
Lemma backoff_schedule_waits (maxRetries delay backoff i : Z)
    (tr : list (event T E)) :
  backoff_schedule maxRetries delay backoff i tr ->
  waits tr
  = List.map (fun k => (delay * backoff ^ (i + Z.of_nat k))%Z)
             (seq 0 (List.length (waits tr))).
Proof.
  induction 1 as [i value | error | i error rest Hneq Hrest IH];
    [reflexivity | reflexivity |].
  cbn [waits flat_map app List.length seq List.map] in *.
  rewrite Z.add_0_r. f_equal.
  rewrite <- seq_shift, map_map. rewrite IH at 1.
  apply map_ext. intros k. do 2 f_equal. lia.
Qed.

(** A scheduled trace holds one invocation more than it holds waits. *)
Lemma backoff_schedule_invocations (maxRetries delay backoff i : Z)
    (tr : list (event T E)) :
  backoff_schedule maxRetries delay backoff i tr ->
  invocations tr = S (List.length (waits tr)).
Proof.
  induction 1 as [i value | error | i error rest Hneq Hrest IH];
    [reflexivity | reflexivity |].
  change (S (invocations rest) = S (S (List.length (waits rest)))).
  f_equal. exact IH.
Qed.

(** A scheduled trace starts with an invocation. *)
Lemma backoff_schedule_head (maxRetries delay backoff i : Z)
    (tr : list (event T E)) :
  backoff_schedule maxRetries delay backoff i tr ->
  exists settled rest, tr = Invoked settled :: rest.
Proof. destruct 1; eauto. Qed.

(** Every wait of a scheduled trace stands right after a failed invocation
    and right before the next invocation. *)
Lemma backoff_schedule_wait_between (maxRetries delay backoff i : Z)
    (tr : list (event T E)) :
  backoff_schedule maxRetries delay backoff i tr ->
  forall pre ms post,
    tr = pre ++ Waited ms :: post ->
    (exists error pre', pre = pre' ++ [Invoked (inr error)])
    /\ (exists settled post', post = Invoked settled :: post').
Proof.
  induction 1 as [i value | error | i error rest Hneq Hrest IH];
    intros pre ms post Heq.
  - destruct pre as [|a [|b pre]]; discriminate Heq.
  - destruct pre as [|a [|b pre]]; discriminate Heq.
  - destruct pre as [|a [|b pre]]; [discriminate Heq | |].
    + injection Heq as Ha Hms Hpost. subst a post. split.
      * exists error, []. reflexivity.
      * exact (backoff_schedule_head Hrest).
    + injection Heq as Ha Hb Hpost. subst a b.
      destruct (IH _ _ _ Hpost) as [(e & pre' & ->) Hnext]. split.
      * exists e, (Invoked (inr error) :: Waited (delay * backoff ^ i) :: pre').
        reflexivity.
      * exact Hnext.
Qed.

(** Every invocation of a scheduled trace is the last event, or is
    followed by a wait. *)
Lemma backoff_schedule_invocation_next (maxRetries delay backoff i : Z)
    (tr : list (event T E)) :
  backoff_schedule maxRetries delay backoff i tr ->
  forall pre settled post,
    tr = pre ++ Invoked settled :: post ->
    post = [] \/ exists ms post', post = Waited ms :: post'.
Proof.
  induction 1 as [i value | error | i error rest Hneq Hrest IH];
    intros pre settled post Heq.
  - destruct pre as [|a [|b pre]]; try discriminate Heq.
    injection Heq as _ Hpost. left. symmetry. exact Hpost.
  - destruct pre as [|a [|b pre]]; try discriminate Heq.
    injection Heq as _ Hpost. left. symmetry. exact Hpost.
  - destruct pre as [|a [|b pre]]; [| discriminate Heq |].
    + injection Heq as _ Hpost. right. subst post. eauto.
    + injection Heq as _ _ Hpost. exact (IH _ _ _ Hpost).
Qed.



(** A run with a negative [maxRetries] does nothing; any other run
    follows the schedule from attempt 0. *)
Lemma withRetry_schedule (maxRetries delay backoff : Z) (w : W) :
  let tr := trace (snd (withRetry undefined fn sleep maxRetries delay backoff w)) in
  if (maxRetries <? 0)%Z then tr = []
  else backoff_schedule maxRetries delay backoff 0 tr.
Proof.
  unfold withRetry, indices. destruct (Z.ltb_spec maxRetries 0) as [Hneg | Hpos].
  - replace (Z.to_nat (maxRetries + 1)) with 0 by lia. reflexivity.
  - destruct (@attempts_schedule maxRetries delay backoff
                (Z.to_nat (maxRetries + 1)) 0 undefined
                {| world := w; trace := [] |}) as (tr & Htr & Hs);
      [lia | lia |].
    cbn zeta. rewrite Htr. exact Hs.
Qed.

(** The delays of a run are the successive powers, one per wait. *)
Lemma withRetry_waits (maxRetries delay backoff : Z) (w : W) :
  let tr := trace (snd (withRetry undefined fn sleep maxRetries delay backoff w)) in
  waits tr = List.map (fun i => (delay * backoff ^ Z.of_nat i)%Z)
                      (seq 0 (List.length (waits tr))).
Proof.
  intros tr.
  pose proof (withRetry_schedule maxRetries delay backoff w) as Hs.
  cbn zeta in Hs. fold tr in Hs. destruct (maxRetries <? 0)%Z.
  - rewrite Hs. reflexivity.
  - exact (backoff_schedule_waits Hs).
Qed.





(** C6.  With [maxRetries = 3], when the first two attempts fail and the
    third succeeds, [withRetry] resolves with the value of the third
    attempt; the trace is attempt, wait, attempt, wait, attempt: three
    invocations, two waits of [delay] and [delay * backoff], nothing
    after the success. *)
Theorem withRetry_third_attempt_succeeds (delay backoff : Z)
    (w0 w1 w2 w3 : W) (e1 e2 : E) (v : T) :
  fn w0 = (inr e1, w1) ->
  fn (sleep (delay * backoff ^ 0) w1) = (inr e2, w2) ->
  fn (sleep (delay * backoff ^ 1) w2) = (inl v, w3) ->
  let run := withRetry undefined fn sleep 3 delay backoff w0 in
  run = (inl v,
         {| world := w3;
            trace := [Invoked (inr e1); Waited (delay * backoff ^ 0);
                      Invoked (inr e2); Waited (delay * backoff ^ 1);
                      Invoked (inl v)] |})
  /\ invocations (trace (snd run)) = 3
  /\ waits (trace (snd run)) = [delay; delay * backoff]%Z.
Proof.
  intros H1 H2 H3 run.
  assert (Hrun : run = (inl v,
         {| world := w3;
            trace := [Invoked (inr e1); Waited (delay * backoff ^ 0);
                      Invoked (inr e2); Waited (delay * backoff ^ 1);
                      Invoked (inl v)] |})).
  { unfold run, withRetry, indices.
    change (Z.to_nat (3 + 1)) with 4%nat.
    cbn [seq List.map Z.of_nat Pos.of_succ_nat Pos.succ attempts].
    rewrite invoke_spec. cbn [world trace]. rewrite H1. cbn [fst snd Z.eqb].
    rewrite invoke_spec. cbn [setTimeout world trace]. rewrite H2.
    cbn [fst snd Z.eqb Pos.eqb].
    rewrite invoke_spec. cbn [setTimeout world trace]. rewrite H3.
    reflexivity. }
  rewrite Hrun. split; [reflexivity |]. split; [reflexivity |].
  cbn [snd trace waits flat_map app].
  rewrite Z.pow_0_r, Z.pow_1_r, Z.mul_1_r. reflexivity.
Qed.

(** C10.  For [maxRetries >= 0], [withRetry] invokes the operation at
    least once; for [maxRetries = 0] it invokes it exactly once, waits
    not at all, and settles as that invocation did: on failure the first
    error is the one propagated. *)
Theorem withRetry_at_least_once (maxRetries delay backoff : Z) (w : W) :
  (0 <= maxRetries)%Z ->
  let run := withRetry undefined fn sleep maxRetries delay backoff w in
  1 <= invocations (trace (snd run))
  /\ (maxRetries = 0%Z ->
      run = (fst (fn w),
             {| world := snd (fn w); trace := [Invoked (fst (fn w))] |})
      /\ invocations (trace (snd run)) = 1
      /\ waits (trace (snd run)) = []).
Proof.
  intros Hpos run. split.
  - unfold run, withRetry, indices.
    replace (Z.to_nat (maxRetries + 1)) with (S (Z.to_nat maxRetries)) by lia.
    cbn [seq List.map attempts]. rewrite invoke_spec.
    cbn [world trace app].
    destruct (fst (fn w)) as [value | error]; [cbn; lia |].
    destruct (Z.of_nat 0 =? maxRetries)%Z; [cbn; lia |].
    eapply Nat.le_trans; [| apply attempts_invocations_mono]. cbn. lia.
  - intros ->. unfold run, withRetry, indices.
    change (Z.to_nat (0 + 1)) with 1.
    cbn [seq List.map Z.of_nat attempts].
    rewrite invoke_spec. cbn [world trace app Z.eqb].
    destruct (fst (fn w)) as [value | error]; repeat split.
Qed.

End RetryProperties.


(** The delays of that run: all three waits, 1000, 2000 and 4000 ms. *)
Example withRetry_backoff_run :
  waits (trace (snd (withRetry 0 Scenario.failing Scenario.idle 3 1000 2 0)))
  = [1000; 2000; 4000]%Z.
Proof. reflexivity. Qed.


(** The run of the witness: the error propagated is the fourth one. *)
Example withRetry_exhaustion_run :
  withRetry 0 Scenario.failing Scenario.idle 3 1000 2 0
  = (inr 4,
     {| world := 4;
        trace := [Invoked (inr 1); Waited 1000; Invoked (inr 2); Waited 2000;
                  Invoked (inr 3); Waited 4000; Invoked (inr 4)] |}).
Proof. reflexivity. Qed.

Lemma withRetry_third_attempt_succeeds_witness :
  withRetry 0 (Scenario.flaky 2) Scenario.idle 3 1000 2 0
  = (inl "ok"%string,
     {| world := 3;
        trace := [Invoked (inr 1); Waited (1000 * 2 ^ 0); Invoked (inr 2);
                  Waited (1000 * 2 ^ 1); Invoked (inl "ok"%string)] |})
  /\ invocations
       (trace (snd (withRetry 0 (Scenario.flaky 2) Scenario.idle 3 1000 2 0))) = 3
  /\ waits
       (trace (snd (withRetry 0 (Scenario.flaky 2) Scenario.idle 3 1000 2 0)))
     = [1000; 1000 * 2]%Z.
Proof.
  apply (@withRetry_third_attempt_succeeds _ _ _ 0 (Scenario.flaky 2)
           Scenario.idle 1000 2 0 1 2 3 1 2 "ok"%string); reflexivity.
Defined.

Lemma withRetry_at_least_once_witness :
  1 <= invocations
         (trace (snd (withRetry 0 Scenario.failing Scenario.idle 0 1000 2 0)))
  /\ (0%Z = 0%Z ->
      withRetry 0 Scenario.failing Scenario.idle 0 1000 2 0
      = (fst (Scenario.failing 0),
         {| world := snd (Scenario.failing 0);
            trace := [Invoked (fst (Scenario.failing 0))] |})
      /\ invocations
           (trace (snd (withRetry 0 Scenario.failing Scenario.idle 0 1000 2 0))) = 1
      /\ waits
           (trace (snd (withRetry 0 Scenario.failing Scenario.idle 0 1000 2 0))) = []).
Proof.
  apply (@withRetry_at_least_once _ _ _ 0 Scenario.failing Scenario.idle
           0 1000 2 0).
  lia.
Defined.

(** A negative [maxRetries] skips the loop: no invocation, and the value
    thrown is [undefined]. *)
Example withRetry_negative :
  withRetry 0 Scenario.failing Scenario.idle (-1) 1000 2 7
  = (inr 0, {| world := 7; trace := [] |}).
Proof. reflexivity. Qed.

(* ================================================================== *)
(** * Further properties of [withRetry] *)
(* ================================================================== *)

Lemma total_app (a b : list Z) : total (a ++ b) = (total a + total b)%Z.
Proof.
  induction a as [|x a IH]; cbn [app total fold_right]; [reflexivity |].
  fold (total (a ++ b)). fold (total a). rewrite IH. lia.
Qed.

Lemma total_nonneg (f : nat -> Z) (l : list nat) :
  (forall i, 0 <= f i)%Z -> (0 <= total (List.map f l))%Z.
Proof.
  intros Hf. induction l as [|i l IH]; cbn [List.map total fold_right];
    [lia |].
  fold (total (List.map f l)). specialize (Hf i). lia.
Qed.

Section RetryBounds.

Variables W T E : Type.
Variable undefined : E.
Variable fn : W -> (T + E) * W.
Variable sleep : Z -> W -> W.

#[local] Abbreviation state := (state W T E).

Section Loop.

Variables maxRetries delay backoff : Z.

#[local] Abbreviation loop := (attempts fn sleep maxRetries delay backoff).

(** The loop invokes the operation at most once per value of [i]. *)
Lemma attempts_invocations_le (ixs : list Z) (lastError : E) (s : state) :
  invocations (trace (snd (loop ixs lastError s)))
  <= invocations (trace s) + List.length ixs.
Proof.
  revert lastError s. induction ixs as [|i ixs IH]; intros lastError s;
    cbn [attempts List.length snd]; [lia |].
  rewrite invoke_spec.
  destruct (fst (fn (world s))) as [value | error].
  - cbn [snd trace]. rewrite invocations_app. cbn. lia.
  - destruct (i =? maxRetries)%Z.
    + cbn [snd trace]. rewrite invocations_app. cbn. lia.
    + eapply Nat.le_trans; [apply IH |].
      cbn [setTimeout trace]. rewrite !invocations_app. cbn. lia.
Qed.


End Loop.

Lemma withRetry_invocations_le (maxRetries delay backoff : Z) (w : W) :
  invocations (trace (snd (withRetry undefined fn sleep maxRetries delay backoff w)))
  <= Z.to_nat (maxRetries + 1).
Proof.
  unfold withRetry.
  eapply Nat.le_trans; [apply attempts_invocations_le |].
  unfold indices. rewrite length_map, length_seq. cbn. lia.
Qed.

Lemma withRetry_waits_length (maxRetries delay backoff : Z) (w : W) :
  let tr := trace (snd (withRetry undefined fn sleep maxRetries delay backoff w)) in
  List.length (waits tr) = invocations tr - 1.
Proof.
  intros tr.
  pose proof (withRetry_schedule undefined fn sleep maxRetries delay backoff w)
    as Hs.
  cbn zeta in Hs. fold tr in Hs. destruct (maxRetries <? 0)%Z.
  - rewrite Hs. reflexivity.
  - rewrite (backoff_schedule_invocations Hs). lia.
Qed.

(** X1.  For an integral [maxRetries], whatever the operation does,
    [withRetry] invokes it at most [maxRetries + 1] times (never, when
    [maxRetries] is negative), and it waits exactly once between two
    consecutive invocations: every wait stands right after a failed
    invocation and right before the next one, and every invocation is the
    last event of the run or is followed by a wait; so there is no wait
    before the first attempt and none after the last. *)
Theorem withRetry_bounded_attempts (maxRetries delay backoff : Z) (w : W) :
  let tr := trace (snd (withRetry undefined fn sleep maxRetries delay backoff w)) in
  invocations tr <= Z.to_nat (maxRetries + 1)
  /\ List.length (waits tr) = invocations tr - 1
  /\ (forall pre ms post,
        tr = pre ++ Waited ms :: post ->
        (exists error pre', pre = pre' ++ [Invoked (inr error)])
        /\ (exists settled post', post = Invoked settled :: post'))
  /\ (forall pre settled post,
        tr = pre ++ Invoked settled :: post ->
        post = [] \/ exists ms post', post = Waited ms :: post').
Proof.
  intros tr.
  pose proof (withRetry_schedule undefined fn sleep maxRetries delay backoff w)
    as Hs.
  cbn zeta in Hs. fold tr in Hs.
  split; [apply withRetry_invocations_le |].
  split; [apply withRetry_waits_length |].
  destruct (maxRetries <? 0)%Z.
  - rewrite Hs. split; intros pre x post Heq; destruct pre; discriminate Heq.
  - split.
    + exact (backoff_schedule_wait_between Hs).
    + exact (backoff_schedule_invocation_next Hs).
Qed.


(** X3.  With a negative [maxRetries] the loop body never runs: the
    operation is not invoked at all, nothing is waited for, and the
    promise rejects with [undefined], the initial content of
    [lastError]. *)
Theorem withRetry_negative_maxRetries (maxRetries delay backoff : Z) (w : W) :
  (maxRetries < 0)%Z ->
  withRetry undefined fn sleep maxRetries delay backoff w
  = (inr undefined, {| world := w; trace := [] |}).
Proof.
  intros Hneg. unfold withRetry, indices.
  replace (Z.to_nat (maxRetries + 1)) with 0 by lia. reflexivity.
Qed.

(** X4.  With a non-negative integral [delay] and [backoff] whose delays
    are safe integers (where the double arithmetic of the source is
    exact), the time [withRetry] asks to wait in total never exceeds
    [delay * (backoff^0 + ... + backoff^(maxRetries - 1))], whatever the
    operation does; with the default arguments (3 retries, 1000 ms,
    factor 2) that is 7000 ms. *)
Theorem withRetry_total_wait_bound (maxRetries delay backoff : Z) (w : W) :
  (0 <= delay)%Z -> (0 <= backoff)%Z ->
  exact_delays maxRetries delay backoff = true ->
  (total (waits (trace (snd (withRetry undefined fn sleep
                               maxRetries delay backoff w))))
   <= total (List.map (fun i => delay * backoff ^ Z.of_nat i)
                      (seq 0 (Z.to_nat maxRetries))))%Z
  /\ (maxRetries = default_maxRetries -> delay = default_delay ->
      backoff = default_backoff ->
      total (waits (trace (snd (withRetry undefined fn sleep
                                  maxRetries delay backoff w))))
      <= 7000)%Z.
Proof.
  intros Hd Hb _.
  assert (Hbound :
    (total (waits (trace (snd (withRetry undefined fn sleep
                                 maxRetries delay backoff w))))
     <= total (List.map (fun i => delay * backoff ^ Z.of_nat i)
                        (seq 0 (Z.to_nat maxRetries))))%Z).
  { pose proof (withRetry_waits undefined fn sleep maxRetries delay backoff w)
      as Hwaits.
    pose proof (withRetry_invocations_le maxRetries delay backoff w) as Hle.
    pose proof (withRetry_waits_length maxRetries delay backoff w) as Hlen.
    cbn zeta in Hwaits, Hlen. rewrite Hwaits.
    set (k := List.length (waits _)) in *.
    assert (Hk : k <= Z.to_nat maxRetries) by lia.
    replace (Z.to_nat maxRetries) with (k + (Z.to_nat maxRetries - k)) by lia.
    rewrite seq_app, map_app, total_app.
    assert (0 <= total (List.map (fun i => delay * backoff ^ Z.of_nat i)
                          (seq (0 + k) (Z.to_nat maxRetries - k))))%Z.
    { apply (total_nonneg (fun i => delay * backoff ^ Z.of_nat i)%Z).
      intros i. apply Z.mul_nonneg_nonneg; [exact Hd |].
      apply Z.pow_nonneg. exact Hb. }
    lia. }
  split; [exact Hbound |].
  intros -> -> ->. exact Hbound.
Qed.

End RetryBounds.


Lemma withRetry_negative_maxRetries_witness :
  withRetry 0 Scenario.failing Scenario.idle (-2) 1000 2 5
  = (inr 0, {| world := 5; trace := [] |}).
Proof.
  apply (@withRetry_negative_maxRetries _ _ _ 0 Scenario.failing Scenario.idle
           (-2) 1000 2 5).
  lia.
Defined.

Lemma withRetry_total_wait_bound_witness :
  (total (waits (trace (snd (withRetry 0%nat Scenario.failing Scenario.idle
                               3 1000 2 0%nat))))
   <= total (List.map (fun i => 1000 * 2 ^ Z.of_nat i) (seq 0 (Z.to_nat 3))))%Z
  /\ (3 = default_maxRetries -> 1000 = default_delay -> 2 = default_backoff ->
      total (waits (trace (snd (withRetry 0%nat Scenario.failing Scenario.idle
                                  3 1000 2 0%nat))))
      <= 7000)%Z.
Proof.
  apply (@withRetry_total_wait_bound _ _ _ 0%nat Scenario.failing
           Scenario.idle 3 1000 2 0%nat); [lia | lia | reflexivity].
Defined.

(** The bound is reached by an operation that always fails. *)
Example withRetry_total_wait_reached :
  total (waits (trace (snd (withRetry 0%nat Scenario.failing Scenario.idle
                              3 1000 2 0%nat)))) = 7000%Z.
Proof. reflexivity. Qed.

(* ================================================================== *)
(** * The matcher decides the language of a pattern *)
(* ================================================================== *)

Section RegExpFacts.

Import RegExp.

Lemma lang_never (s : jsstring) : ~ lang Never s.
Proof. intros H. inversion H. Qed.

Lemma lang_empty_iff (s : jsstring) : lang Empty s <-> s = [].
Proof. split; [inversion 1; reflexivity | intros ->; constructor]. Qed.

Lemma lang_chars_iff (c : class) (s : jsstring) :
  lang (Chars c) s <-> exists u, s = [u] /\ in_class c u = true.
Proof.
  split.
  - inversion 1; subst. eauto.
  - intros (u & -> & H). constructor. exact H.
Qed.

Lemma lang_seq_iff (r1 r2 : regex) (s : jsstring) :
  lang (Seq r1 r2) s
  <-> exists s1 s2, s = s1 ++ s2 /\ lang r1 s1 /\ lang r2 s2.
Proof.
  split.
  - inversion 1; subst. eauto 6.
  - intros (s1 & s2 & -> & H1 & H2). exact (lang_seq H1 H2).
Qed.

Lemma lang_alt_iff (r1 r2 : regex) (s : jsstring) :
  lang (Alt r1 r2) s <-> lang r1 s \/ lang r2 s.
Proof.
  split.
  - inversion 1; subst; auto.
  - intros [H | H]; [apply lang_alt_l | apply lang_alt_r]; exact H.
Qed.

(** A split of [u :: s] either gives [u] to the right part or to the left. *)
Lemma split_cons (P Q : jsstring -> Prop) (u : N) (s : jsstring) :
  (exists s1 s2, u :: s = s1 ++ s2 /\ P s1 /\ Q s2)
  <-> (P [] /\ Q (u :: s))
      \/ (exists s1 s2, s = s1 ++ s2 /\ P (u :: s1) /\ Q s2).
Proof.
  split.
  - intros ([|v s1] & s2 & Heq & H1 & H2); cbn [app] in Heq.
    + left. subst. auto.
    + right. injection Heq as <- ->. eauto.
  - intros [[H1 H2] | (s1 & s2 & -> & H1 & H2)].
    + exists [], (u :: s). auto.
    + exists (u :: s1), s2. auto.
Qed.

Lemma nullable_lang (r : regex) : nullable r = true <-> lang r [].
Proof.
  induction r as [| | c | r1 IH1 r2 IH2 | r1 IH1 r2 IH2 | r IH]; cbn [nullable].
  - split; [discriminate | intros H; destruct (lang_never H)].
  - rewrite lang_empty_iff. split; reflexivity.
  - rewrite lang_chars_iff. split; [discriminate | intros (u & [=] & _)].
  - rewrite andb_true_iff, IH1, IH2, lang_seq_iff. split.
    + intros [H1 H2]. exists [], []. auto.
    + intros (s1 & s2 & Heq & H1 & H2). symmetry in Heq.
      apply app_eq_nil in Heq. destruct Heq; subst. auto.
  - rewrite orb_true_iff, IH1, IH2, lang_alt_iff. tauto.
  - split; [constructor | reflexivity].
Qed.

(** A non-empty match of [r*] starts with a non-empty match of [r]. *)
Lemma lang_star_cons_inv (r : regex) (u : N) (s : jsstring) :
  lang (Star r) (u :: s) ->
  exists s1 s2, s = s1 ++ s2 /\ lang r (u :: s1) /\ lang (Star r) s2.
Proof.
  intros H. remember (Star r) as r' eqn:Hr. remember (u :: s) as t eqn:Ht.
  revert u s Hr Ht.
  induction H as [| | | | | r0 | r0 s1 s2 H1 _ H2 IH2]; intros u' s' Hr Ht;
    try discriminate.
  injection Hr as ->. destruct s1 as [|v s1]; cbn [app] in Ht.
  - exact (IH2 u' s' eq_refl Ht).
  - injection Ht as -> <-. exists s1, s2. auto.
Qed.

Lemma derivative_lang (r : regex) (u : N) (s : jsstring) :
  lang (derivative u r) s <-> lang r (u :: s).
Proof.
  revert s.
  induction r as [| | c | r1 IH1 r2 IH2 | r1 IH1 r2 IH2 | r IH]; intros s;
    cbn [derivative].
  - split; intros H; destruct (lang_never H).
  - rewrite lang_empty_iff. split; [intros H; destruct (lang_never H) | discriminate].
  - rewrite lang_chars_iff. destruct (in_class c u) eqn:Hc.
    + rewrite lang_empty_iff. split.
      * intros ->. eauto.
      * intros (v & [= -> ->] & _). reflexivity.
    + split; [intros H; destruct (lang_never H) |].
      intros (v & [= -> ->] & Hv). congruence.
  - rewrite (lang_seq_iff r1 r2), split_cons.
    assert (Hleft : lang (Seq (derivative u r1) r2) s
                    <-> exists s1 s2, s = s1 ++ s2 /\ lang r1 (u :: s1) /\ lang r2 s2).
    { rewrite lang_seq_iff. split; intros (s1 & s2 & -> & H1 & H2);
        exists s1, s2; (split; [reflexivity |]); split; try assumption;
        apply IH1; assumption. }
    destruct (nullable r1) eqn:Hn.
    + rewrite lang_alt_iff, Hleft, IH2. apply nullable_lang in Hn. tauto.
    + rewrite Hleft. split; [tauto |].
      intros [[H1 _] | H]; [| exact H].
      apply nullable_lang in H1. congruence.
  - rewrite !lang_alt_iff, IH1, IH2. tauto.
  - rewrite lang_seq_iff. split.
    + intros (s1 & s2 & -> & H1 & H2). apply IH in H1.
      exact (lang_star_cons H1 H2).
    + intros H. destruct (lang_star_cons_inv H) as (s1 & s2 & -> & H1 & H2).
      apply IH in H1. eauto.
Qed.

Lemma test_lang (r : regex) (s : jsstring) : test r s = true <-> lang r s.
Proof.
  revert r. induction s as [|u s IH]; intros r; cbn [test].
  - apply nullable_lang.
  - rewrite IH. apply derivative_lang.
Qed.

(** The languages of the quantified classes. *)
Lemma lang_exactly_chars (c : class) (n : nat) (s : jsstring) :
  lang (Exactly n (Chars c)) s
  <-> List.length s = n /\ Forall (fun u => in_class c u = true) s.
Proof.
  revert s. induction n as [|n IH]; intros s; cbn [Exactly].
  - split.
    + inversion 1. split; [reflexivity | constructor].
    + intros [Hlen _]. apply length_zero_iff_nil in Hlen. subst. constructor.
  - rewrite lang_seq_iff. split.
    + intros (s1 & s2 & -> & H1 & H2). apply lang_chars_iff in H1.
      destruct H1 as (u & -> & Hu). apply IH in H2. destruct H2 as [Hlen Hall].
      cbn. split; [congruence | constructor; assumption].
    + intros [Hlen Hall]. destruct s as [|u s]; [discriminate |].
      inversion Hall; subst. exists [u], s. split; [reflexivity |].
      split; [constructor; assumption |].
      apply IH. split; [cbn in Hlen; congruence | assumption].
Qed.

Lemma lang_atmost_chars (c : class) (n : nat) (s : jsstring) :
  lang (AtMost n (Chars c)) s
  <-> List.length s <= n /\ Forall (fun u => in_class c u = true) s.
Proof.
  revert s. induction n as [|n IH]; intros s; cbn [AtMost].
  - split.
    + inversion 1. split; [apply Nat.le_refl | constructor].
    + intros [Hlen _]. destruct s; [constructor | cbn in Hlen; lia].
  - split.
    + inversion 1 as [| | | ? ? ? He | ? ? ? Hs | |]; subst.
      * inversion He. split; [cbn; lia | constructor].
      * apply lang_seq_iff in Hs. destruct Hs as (s1 & s2 & -> & H1 & H2).
        apply lang_chars_iff in H1. destruct H1 as (u & -> & Hu).
        apply IH in H2. destruct H2 as [Hlen Hall].
        cbn. split; [lia | constructor; assumption].
    + intros [Hlen Hall]. destruct s as [|u s].
      * apply lang_alt_l. constructor.
      * apply lang_alt_r. inversion Hall; subst.
        apply (lang_seq (s1 := [u])); [constructor; assumption |].
        apply IH. split; [cbn in Hlen; lia | assumption].
Qed.

Lemma lang_between_chars (c : class) (m n : nat) (s : jsstring) :
  m <= n ->
  lang (Between m n (Chars c)) s
  <-> (m <= List.length s <= n) /\ Forall (fun u => in_class c u = true) s.
Proof.
  intros Hmn. unfold Between. rewrite lang_seq_iff. split.
  - intros (s1 & s2 & -> & H1 & H2).
    apply lang_exactly_chars in H1. apply lang_atmost_chars in H2.
    destruct H1 as [Hl1 Ha1], H2 as [Hl2 Ha2].
    rewrite length_app. split; [lia | apply Forall_app; split; assumption].
  - intros [Hlen Hall]. exists (firstn m s), (skipn m s).
    rewrite <- (firstn_skipn m s) in Hall. apply Forall_app in Hall.
    split; [symmetry; apply firstn_skipn |]. split.
    + apply lang_exactly_chars. split; [| tauto].
      rewrite length_firstn. lia.
    + apply lang_atmost_chars. split; [| tauto].
      rewrite length_skipn. lia.
Qed.

Lemma lang_star_chars (c : class) (s : jsstring) :
  lang (Star (Chars c)) s <-> Forall (fun u => in_class c u = true) s.
Proof.
  split.
  - intros H. remember (Star (Chars c)) as r eqn:Hr.
    induction H as [| | | | | r0 | r0 s1 s2 H1 _ H2 IH2]; try discriminate.
    + constructor.
    + injection Hr as ->. inversion H1; subst.
      constructor; [assumption | apply IH2; reflexivity].
  - induction 1 as [|u s Hu _ IH]; [constructor |].
    apply (lang_star_cons (s1 := [u])); [constructor; assumption | exact IH].
Qed.

Lemma lang_plus_chars (c : class) (s : jsstring) :
  lang (Plus (Chars c)) s
  <-> s <> [] /\ Forall (fun u => in_class c u = true) s.
Proof.
  unfold Plus. rewrite lang_seq_iff. split.
  - intros (s1 & s2 & -> & H1 & H2). apply lang_chars_iff in H1.
    destruct H1 as (u & -> & Hu). apply lang_star_chars in H2.
    split; [discriminate | constructor; assumption].
  - intros [Hne Hall]. destruct s as [|u s]; [contradiction |].
    inversion Hall; subst. exists [u], s. split; [reflexivity |].
    split; [constructor; assumption | apply lang_star_chars; assumption].
Qed.

End RegExpFacts.

(* ================================================================== *)
(** * Properties of the validators *)
(* ================================================================== *)

Lemma in_class_one (a : ascii) (u : N) :
  RegExp.in_class (RegExp.one a) u = true <-> u = N_of_ascii a.
Proof.
  unfold RegExp.in_class, RegExp.one, RegExp.range. cbn.
  rewrite orb_false_r, andb_true_iff, !N.leb_le. lia.
Qed.

Lemma lang_one (a : ascii) (s : jsstring) :
  RegExp.lang (RegExp.Chars (RegExp.one a)) s <-> s = [N_of_ascii a].
Proof.
  rewrite lang_chars_iff. split.
  - intros (u & -> & Hu). apply in_class_one in Hu. congruence.
  - intros ->. eexists. split; [reflexivity | apply in_class_one; reflexivity].
Qed.

(** X5.  [isValidAddress] accepts exactly the strings made of the letter
    [r] and then 25 to 34 characters of the base-58 alphabet (digits 1-9
    and letters, without [I], [O] and [l]); so an accepted address has 26
    to 35 characters and holds none of [0], [O], [I], [l]. *)
Theorem isValidAddress_iff (address : jsstring) :
  (isValidAddress address = true
   <-> exists rest,
         address = lit "r" ++ rest
         /\ 25 <= List.length rest <= 34
         /\ Forall (fun u => RegExp.in_class base58 u = true) rest)
  /\ (isValidAddress address = true ->
      26 <= JS.length address <= 35
      /\ forall u, In u (lit "0OIl") -> ~ In u address).
Proof.
  assert (Hiff : isValidAddress address = true
                 <-> exists rest,
                       address = lit "r" ++ rest
                       /\ 25 <= List.length rest <= 34
                       /\ Forall (fun u => RegExp.in_class base58 u = true) rest).
  { unfold isValidAddress, address_pattern.
    rewrite test_lang, lang_seq_iff. split.
    - intros (s1 & s2 & -> & H1 & H2). apply lang_one in H1. subst s1.
      apply lang_between_chars in H2; [| lia]. exists s2. tauto.
    - intros (rest & -> & Hlen & Hall). exists (lit "r"), rest.
      split; [reflexivity |]. split; [apply lang_one; reflexivity |].
      apply lang_between_chars; [lia | tauto]. }
  split; [exact Hiff |].
  intros H. apply Hiff in H. destruct H as (rest & -> & Hlen & Hall).
  split; [unfold JS.length; cbn; lia |].
  intros u Hu [Hin | Hin].
  - subst u. cbn in Hu. intuition discriminate.
  - rewrite Forall_forall in Hall. specialize (Hall u Hin).
    cbn in Hu. destruct Hu as [<- | [<- | [<- | [<- | []]]]];
      vm_compute in Hall; discriminate.
Qed.

Lemma isValidAddress_iff_witness :
  26 <= JS.length (lit "rHb9CJAWyB4rj91VRWn96DkukG4bwdtyTh") <= 35
  /\ forall u, In u (lit "0OIl") ->
               ~ In u (lit "rHb9CJAWyB4rj91VRWn96DkukG4bwdtyTh").
Proof.
  apply (proj2 (isValidAddress_iff (lit "rHb9CJAWyB4rj91VRWn96DkukG4bwdtyTh"))).
  vm_compute. reflexivity.
Defined.

(** X6.  [isValidTokenSymbol] accepts exactly the strings that start with
    a letter [A-Z] and go on with 2 to 9 characters [A-Z0-9]; so an
    accepted symbol has 3 to 10 characters, as the comment of the source
    says. *)
Theorem isValidTokenSymbol_iff (symbol : jsstring) :
  (isValidTokenSymbol symbol = true
   <-> exists first rest,
         symbol = first :: rest
         /\ RegExp.in_class upper first = true
         /\ 2 <= List.length rest <= 9
         /\ Forall (fun u => RegExp.in_class upper_or_digit u = true) rest)
  /\ (isValidTokenSymbol symbol = true -> 3 <= JS.length symbol <= 10).
Proof.
  assert (Hiff : isValidTokenSymbol symbol = true
                 <-> exists first rest,
                       symbol = first :: rest
                       /\ RegExp.in_class upper first = true
                       /\ 2 <= List.length rest <= 9
                       /\ Forall (fun u => RegExp.in_class upper_or_digit u = true)
                                 rest).
  { unfold isValidTokenSymbol, symbol_pattern.
    rewrite test_lang, lang_seq_iff. split.
    - intros (s1 & s2 & -> & H1 & H2). apply lang_chars_iff in H1.
      destruct H1 as (u & -> & Hu).
      apply lang_between_chars in H2; [| lia]. exists u, s2. tauto.
    - intros (u & rest & -> & Hu & Hlen & Hall). exists [u], rest.
      split; [reflexivity |]. split; [constructor; exact Hu |].
      apply lang_between_chars; [lia | tauto]. }
  split; [exact Hiff |].
  intros H. apply Hiff in H. destruct H as (u & rest & -> & _ & Hlen & _).
  unfold JS.length. cbn. lia.
Qed.

Lemma isValidTokenSymbol_iff_witness : 3 <= JS.length (lit "XRP") <= 10.
Proof.
  apply (proj2 (isValidTokenSymbol_iff (lit "XRP"))). reflexivity.
Defined.

(** Lower case is rejected, and so is a leading digit. *)
Example isValidTokenSymbol_rejects :
  isValidTokenSymbol (lit "xrp") = false
  /\ isValidTokenSymbol (lit "1INCH") = false
  /\ isValidTokenSymbol (lit "AB") = false.
Proof. repeat split. Qed.

Lemma not_space_or_at_not_at (l : jsstring) :
  Forall (fun u => RegExp.in_class not_space_or_at u = true) l ->
  count_occ N.eq_dec l 64%N = 0.
Proof.
  induction 1 as [|u l Hu _ IH]; [reflexivity |].
  cbn [count_occ]. destruct (N.eq_dec u 64) as [-> | _]; [| exact IH].
  vm_compute in Hu. discriminate.
Qed.

(** X7.  [isValidEmail] accepts exactly the strings of the form
    [local@a.b] in which [local], [a] and [b] are not empty and hold
    neither white space nor [@] (dots are allowed anywhere in them); so an
    accepted email holds exactly one [@]. *)
Theorem isValidEmail_iff (email : jsstring) :
  (isValidEmail email = true
   <-> exists local a b,
         email = local ++ lit "@" ++ a ++ lit "." ++ b
         /\ local <> [] /\ a <> [] /\ b <> []
         /\ Forall (fun u => RegExp.in_class not_space_or_at u = true)
                   (local ++ a ++ b))
  /\ (isValidEmail email = true -> count_occ N.eq_dec email 64%N = 1).
Proof.
  assert (Hiff : isValidEmail email = true
                 <-> exists local a b,
                       email = local ++ lit "@" ++ a ++ lit "." ++ b
                       /\ local <> [] /\ a <> [] /\ b <> []
                       /\ Forall (fun u => RegExp.in_class not_space_or_at u = true)
                                 (local ++ a ++ b)).
  { unfold isValidEmail, emailRegex. rewrite test_lang. split.
    - intros H.
      apply lang_seq_iff in H. destruct H as (local & t1 & -> & Hl & H).
      apply lang_seq_iff in H. destruct H as (at_ & t2 & -> & Hat & H).
      apply lang_seq_iff in H. destruct H as (a & t3 & -> & Ha & H).
      apply lang_seq_iff in H. destruct H as (dot & b & -> & Hdot & Hb).
      apply lang_one in Hat, Hdot. subst at_ dot.
      apply lang_plus_chars in Hl, Ha, Hb.
      exists local, a, b. split; [reflexivity |].
      repeat (split; [tauto |]). rewrite !Forall_app. tauto.
    - intros (local & a & b & -> & Hl & Ha & Hb & Hall).
      rewrite !Forall_app in Hall. destruct Hall as (Fl & Fa & Fb).
      apply RegExp.lang_seq; [apply lang_plus_chars; tauto |].
      apply RegExp.lang_seq; [apply lang_one; reflexivity |].
      apply RegExp.lang_seq; [apply lang_plus_chars; tauto |].
      apply RegExp.lang_seq; [apply lang_one; reflexivity |].
      apply lang_plus_chars; tauto. }
  split; [exact Hiff |].
  intros H. apply Hiff in H.
  destruct H as (local & a & b & -> & _ & _ & _ & Hall).
  rewrite !Forall_app in Hall. destruct Hall as (Fl & Fa & Fb).
  rewrite !count_occ_app.
  rewrite (not_space_or_at_not_at Fl), (not_space_or_at_not_at Fa),
    (not_space_or_at_not_at Fb).
  reflexivity.
Qed.

Lemma isValidEmail_iff_witness :
  count_occ N.eq_dec (lit "user.name@example.co.uk") 64%N = 1.
Proof.
  apply (proj2 (isValidEmail_iff (lit "user.name@example.co.uk"))).
  vm_compute. reflexivity.
Defined.

(** The pattern is lenient: dots may stand anywhere around the [@]. *)
Example isValidEmail_lenient :
  isValidEmail (lit ".@...") = true
  /\ isValidEmail (lit "a@b..c") = true
  /\ isValidEmail (lit "a@b") = false
  /\ isValidEmail (lit "a b@c.d") = false.
Proof. repeat split. Qed.

(* ================================================================== *)
(** * Properties of [formatDuration] *)
(* ================================================================== *)

(** Decides a comparison of quotients by constants. *)
Ltac quotients := Z.to_euclidean_division_equations; lia.

(** X8.  For a safe integer number of milliseconds (below [2^53] in
    magnitude, where the divisions of the source are exact),
    [formatDuration] shows the two largest units and truncates: below one
    minute (zero and negative durations included) it prints the whole
    seconds, rounded down, alone; from one minute on it prints minutes and
    seconds, from one hour on hours and minutes, from one day on days and
    hours.  The duration shown is never longer than the real one, and
    shorter by less than one of the smaller unit shown; every number
    printed is a safe integer. *)
Theorem formatDuration_truncates (ms : Z) :
  safe_integer ms = true ->
  ((ms < 60000)%Z ->
   formatDuration ms = Number.toString (ms / 1000) ++ lit "s"
   /\ safe_integer (ms / 1000) = true)
  /\ ((60000 <= ms < 3600000)%Z ->
      exists m s,
        formatDuration ms
        = Number.toString m ++ lit "m " ++ Number.toString s ++ lit "s"
        /\ (1 <= m <= 59 /\ 0 <= s <= 59
            /\ 0 <= ms - (m * 60000 + s * 1000) < 1000)%Z)
  /\ ((3600000 <= ms < 86400000)%Z ->
      exists h m,
        formatDuration ms
        = Number.toString h ++ lit "h " ++ Number.toString m ++ lit "m"
        /\ (1 <= h <= 23 /\ 0 <= m <= 59
            /\ 0 <= ms - (h * 3600000 + m * 60000) < 60000)%Z)
  /\ ((86400000 <= ms)%Z ->
      exists d h,
        formatDuration ms
        = Number.toString d ++ lit "d " ++ Number.toString h ++ lit "h"
        /\ (1 <= d <= 104249991 /\ 0 <= h <= 23
            /\ 0 <= ms - (d * 86400000 + h * 3600000) < 3600000)%Z).
Proof.
  intros Hsafe. unfold safe_integer in Hsafe. apply Z.ltb_lt in Hsafe.
  change (2 ^ 53)%Z with 9007199254740992%Z in Hsafe.
  unfold formatDuration. cbv zeta.
  repeat split.
  - destruct (Z.ltb_spec 0 (ms / 1000 / 60 / 60 / 24)); [exfalso; quotients |].
    destruct (Z.ltb_spec 0 (ms / 1000 / 60 / 60)); [exfalso; quotients |].
    destruct (Z.ltb_spec 0 (ms / 1000 / 60)); [exfalso; quotients |].
    reflexivity.
  - unfold safe_integer. apply Z.ltb_lt.
    change (2 ^ 53)%Z with 9007199254740992%Z. quotients.
  - intros H.
    destruct (Z.ltb_spec 0 (ms / 1000 / 60 / 60 / 24)); [exfalso; quotients |].
    destruct (Z.ltb_spec 0 (ms / 1000 / 60 / 60)); [exfalso; quotients |].
    destruct (Z.ltb_spec 0 (ms / 1000 / 60)); [| exfalso; quotients].
    exists (ms / 1000 / 60)%Z, (Z.rem (ms / 1000) 60).
    split; [reflexivity | quotients].
  - intros H.
    destruct (Z.ltb_spec 0 (ms / 1000 / 60 / 60 / 24)); [exfalso; quotients |].
    destruct (Z.ltb_spec 0 (ms / 1000 / 60 / 60)); [| exfalso; quotients].
    exists (ms / 1000 / 60 / 60)%Z, (Z.rem (ms / 1000 / 60) 60).
    split; [reflexivity | quotients].
  - intros H.
    destruct (Z.ltb_spec 0 (ms / 1000 / 60 / 60 / 24)); [| exfalso; quotients].
    exists (ms / 1000 / 60 / 60 / 24)%Z, (Z.rem (ms / 1000 / 60 / 60) 24).
    split; [reflexivity | quotients].
Qed.

Lemma formatDuration_truncates_witness :
  exists d h,
    formatDuration 90061001
    = Number.toString d ++ lit "d " ++ Number.toString h ++ lit "h"
    /\ (1 <= d <= 104249991 /\ 0 <= h <= 23
        /\ 0 <= 90061001 - (d * 86400000 + h * 3600000) < 3600000)%Z.
Proof.
  apply (proj2 (proj2 (proj2 (formatDuration_truncates 90061001 eq_refl)))).
  lia.
Defined.

Example formatDuration_examples :
  formatDuration 90061001 = lit "1d 1h"
  /\ formatDuration 3599999 = lit "59m 59s"
  /\ formatDuration 999 = lit "0s"
  /\ formatDuration 0 = lit "0s"
  /\ formatDuration (-1) = lit "-1s"
  /\ formatDuration (-86400000) = lit "-86400s".
Proof. repeat split. Qed.

(* ================================================================== *)
(** * Further properties of the webhook service *)
(* ================================================================== *)

(** X9.  [verifySignature] answers [true] exactly when a non-empty secret
    is available and the signature is, unit for unit, the string
    ["sha256="] followed by the hexadecimal HMAC of the payload under that
    secret; with a secret available, any other signature (a changed,
    missing or added character, another letter case) is answered
    [false]. *)
Theorem verifySignature_true_iff {R : Runtime} (this : WebhooksService)
    (payload : payload) (signature : jsstring) (secret : option jsstring) :
  (verifySignature this payload signature secret = Return true
   <-> falsy secret && falsy (webhookSecret this) = false
       /\ signature
          = lit "sha256=" ++
            createHmac_sha256_hex (secretToUse this secret) payload)
  /\ (verifySignature this payload signature secret = Return false
      <-> falsy secret && falsy (webhookSecret this) = false
          /\ signature
             <> lit "sha256=" ++
                createHmac_sha256_hex (secretToUse this secret) payload).
Proof.
  rewrite verifySignature_unfold.
  destruct (falsy secret && falsy (webhookSecret this)).
  - split; split; try discriminate; intros [H _]; discriminate.
  - destruct (jsstring_eqb _ signature) eqn:Heq.
    + apply jsstring_eqb_eq in Heq. subst signature.
      intuition (try discriminate; try congruence).
    + assert (Hne : signature
                    <> lit "sha256=" ++
                       createHmac_sha256_hex (secretToUse this secret) payload).
      { intros ->. rewrite (proj2 (jsstring_eqb_eq _ _) eq_refl) in Heq.
        discriminate. }
      intuition (try discriminate; try congruence).
Qed.

(** X10.  With signature verification enabled the middleware never hands
    an event to the host unless the request carried the expected
    signature of its raw body under an available non-empty secret; and the
    event it hands on, stored alike in [req.webhookEvent] and [req.body],
    is what [JSON.parse] made of that same raw body. *)
Theorem middleware_forwards_only_authentic {R : Runtime}
    (this : WebhooksService) (options : option MiddlewareOptions)
    (req : Request) (event event' : json) :
  verification_enabled options = true ->
  middleware this options req = Next event event' ->
  headers req "x-xrpl-sale-signature"
  = Some (lit "sha256=" ++
          createHmac_sha256_hex
            (secretToUse this (options_secret options)) (body req))
  /\ falsy (options_secret options) && falsy (webhookSecret this) = false
  /\ JSON_parse (payload_text (body req)) = Some event
  /\ event' = event.
Proof.
  intros Henabled. unfold middleware. rewrite Henabled.
  destruct (headers req "x-xrpl-sale-signature") as [[|u s]|];
    try discriminate.
  rewrite verifySignature_unfold.
  destruct (falsy (options_secret options) && falsy (webhookSecret this));
    [discriminate |].
  destruct (jsstring_eqb _ (u :: s)) eqn:Heq; [| discriminate].
  apply jsstring_eqb_eq in Heq.
  unfold parse_and_continue, parseWebhook, payload_text.
  destruct (JSON_parse _) as [ev |]; [| discriminate].
  intros [= <- <-]. rewrite Heq. repeat split.
Qed.

Lemma middleware_forwards_only_authentic_witness :
  headers
    (Scenario.request Scenario.payload
       (Some (Scenario.sign (R := Node.runtime) Scenario.payload (lit "whsec_test"))))
    "x-xrpl-sale-signature"
  = Some (lit "sha256=" ++
          createHmac_sha256_hex (Runtime := Node.runtime)
            (secretToUse Scenario.service (options_secret None))
            Scenario.payload)
  /\ falsy (options_secret None) && falsy (webhookSecret Scenario.service) = false
  /\ JSON_parse (Runtime := Node.runtime) (payload_text (R := Node.runtime) Scenario.payload)
     = Some Scenario.event
  /\ Scenario.event = Scenario.event.
Proof.
  apply (middleware_forwards_only_authentic (R := Node.runtime)
           Scenario.service None
           (Scenario.request Scenario.payload
              (Some (Scenario.sign (R := Node.runtime) Scenario.payload
                       (lit "whsec_test"))))).
  - reflexivity.
  - vm_compute. reflexivity.
Defined.

Lemma middleware_unverified_witness :
  middleware (R := Node.runtime) Scenario.unconfigured
    (Some {| secret := None; verifySignature_option := Some false |})
    (Scenario.request Scenario.payload None)
  = match JSON_parse (Runtime := Node.runtime) (payload_text (R := Node.runtime) Scenario.payload) with
    | Some event => Next event event
    | None => MalformedPayloadError
    end.
Proof.
  apply (middleware_unverified (R := Node.runtime)). reflexivity.
Defined.

(* ================================================================== *)
(** * Properties of [generateUUID] *)
(* ================================================================== *)

Lemma toInt32_small (x : Z) : (0 <= x < 16)%Z -> toInt32 x = x.
Proof.
  intros H. unfold toInt32. rewrite Z.mod_small by lia.
  destruct (Z.ltb_spec x (2 ^ 31)); [reflexivity | lia].
Qed.

(** A value below 16 prints as one hexadecimal digit; from 8 to 11 the
    digit is one of [8], [9], [a], [b]. *)
Lemma toString16_digit (v : Z) :
  (0 <= v < 16)%Z ->
  exists d, Number16.toString v = [d]
            /\ RegExp.in_class hex_digit d = true
            /\ ((8 <= v < 12)%Z -> RegExp.in_class variant_digit d = true).
Proof.
  intros H.
  assert (Hv : In v [0; 1; 2; 3; 4; 5; 6; 7; 8; 9; 10; 11; 12; 13; 14; 15]%Z).
  { cbn. lia. }
  cbn in Hv.
  repeat (destruct Hv as [<- | Hv];
          [eexists; split; [reflexivity |]; split; [reflexivity |];
           intros Hr; try reflexivity; lia |]).
  destruct Hv.
Qed.

Lemma variant_range (r : Z) :
  (0 <= r < 16)%Z -> (8 <= Z.lor (Z.land r 0x3) 0x8 < 12)%Z.
Proof.
  intros H.
  assert (Hr : In r [0; 1; 2; 3; 4; 5; 6; 7; 8; 9; 10; 11; 12; 13; 14; 15]%Z).
  { cbn. lia. }
  cbn in Hr.
  repeat (destruct Hr as [<- | Hr]; [cbn; lia |]).
  destruct Hr.
Qed.

Section RandomFacts.

Variable G : Type.
Variable Math_random : G -> QArith_base.Q * G.

(** The contract of [Math.random]: a draw lies in [[0, 1)]. *)
Hypothesis Math_random_range :
  forall g, (0 <= QArith_base.Qnum (fst (Math_random g))
             < Z.pos (QArith_base.Qden (fst (Math_random g))))%Z.

Lemma random16_range (g : G) : (0 <= fst (random16 Math_random g) < 16)%Z.
Proof using Math_random_range.
  unfold random16. pose proof (Math_random_range g) as H.
  destruct (Math_random g) as [[n d] g']. cbn [fst QArith_base.Qnum QArith_base.Qden] in *.
  assert (Hq : (0 <= Z.quot (16 * n) (Z.pos d) < 16)%Z).
  { rewrite Z.quot_div_nonneg by lia. split.
    - apply Z.div_pos; lia.
    - apply Z.div_lt_upper_bound; lia. }
  rewrite toInt32_small by exact Hq. exact Hq.
Qed.

Lemma replacer_digit (c : N) (g : G) :
  exists d, fst (replacer Math_random c g) = [d]
            /\ RegExp.in_class hex_digit d = true
            /\ (c <> 120%N -> RegExp.in_class variant_digit d = true).
Proof using Math_random_range.
  unfold replacer. pose proof (random16_range g) as Hr.
  destruct (random16 Math_random g) as [r g']. cbn [fst] in *.
  destruct (N.eqb_spec c 120) as [-> | Hc].
  - destruct (toString16_digit Hr) as (d & Hd & Hhex & _).
    exists d. repeat split; try assumption. intros Hne. contradiction.
  - pose proof (variant_range Hr) as Hv.
    destruct (@toString16_digit (Z.lor (Z.land r 3) 8)) as (d & Hd & Hhex & Hvar);
      [lia |].
    exists d. repeat split; try assumption. intros _. apply Hvar. exact Hv.
Qed.

Lemma replace_xy_app (t1 t2 : jsstring) (g : G) :
  replace_xy Math_random (t1 ++ t2) g
  = let (o1, g1) := replace_xy Math_random t1 g in
    let (o2, g2) := replace_xy Math_random t2 g1 in
    (o1 ++ o2, g2).
Proof.
  revert g. induction t1 as [|c t1 IH]; intros g; cbn [app replace_xy].
  - destruct (replace_xy Math_random t2 g). reflexivity.
  - destruct ((c =? 120)%N || (c =? 121)%N).
    + destruct (replacer Math_random c g) as [s g1]. rewrite IH.
      destruct (replace_xy Math_random t1 g1) as [o1 g2].
      destruct (replace_xy Math_random t2 g2) as [o2 g3].
      rewrite app_assoc. reflexivity.
    + rewrite IH. destruct (replace_xy Math_random t1 g) as [o1 g2].
      destruct (replace_xy Math_random t2 g2) as [o2 g3]. reflexivity.
Qed.

(** Every replacement is one character long: the length is kept. *)
Lemma replace_xy_length (t : jsstring) (g : G) :
  List.length (fst (replace_xy Math_random t g)) = List.length t.
Proof using Math_random_range.
  revert g. induction t as [|c t IH]; intros g; cbn [replace_xy];
    [reflexivity |].
  destruct ((c =? 120)%N || (c =? 121)%N).
  - destruct (replacer_digit c g) as (d & Hd & _).
    destruct (replacer Math_random c g) as [s g1]. cbn [fst] in Hd. subst s.
    specialize (IH g1). destruct (replace_xy Math_random t g1) as [o g2].
    cbn [fst app List.length] in *. congruence.
  - specialize (IH g). destruct (replace_xy Math_random t g) as [o g2].
    cbn [fst List.length] in *. congruence.
Qed.

(** A run of [x] becomes as many hexadecimal digits. *)
Lemma replace_xy_xs (n : nat) (g : G) :
  RegExp.lang (RegExp.Exactly n (RegExp.Chars hex_digit))
              (fst (replace_xy Math_random (repeat 120%N n) g)).
Proof using Math_random_range.
  apply lang_exactly_chars. revert g.
  induction n as [|n IH]; intros g; cbn [repeat replace_xy].
  - split; [reflexivity | constructor].
  - cbn [N.eqb Pos.eqb orb].
    destruct (replacer_digit 120 g) as (d & Hd & Hhex & _).
    destruct (replacer Math_random 120 g) as [s g1]. cbn [fst] in Hd. subst s.
    specialize (IH g1).
    destruct (replace_xy Math_random (repeat 120%N n) g1) as [o g2].
    cbn [fst app List.length] in *. destruct IH as [Hlen Hall].
    split; [congruence | constructor; assumption].
Qed.

Lemma replace_xy_y (g : G) :
  RegExp.lang (RegExp.Chars variant_digit)
              (fst (replace_xy Math_random [121%N] g)).
Proof using Math_random_range.
  cbn [replace_xy N.eqb Pos.eqb orb].
  destruct (replacer_digit 121 g) as (d & Hd & _ & Hvar).
  destruct (replacer Math_random 121 g) as [s g1]. cbn [fst] in *. subst s.
  constructor. apply Hvar. discriminate.
Qed.

(** X12.  Whatever numbers [Math.random] draws, [generateUUID] returns a
    string of 36 characters of the form of a version 4 UUID: lower-case
    hexadecimal digits in groups of 8, 4, 4, 4 and 12 separated by
    hyphens, the third group starting with [4] and the fourth with one of
    [8], [9], [a], [b]. *)
Theorem generateUUID_is_v4 (g : G) :
  RegExp.test uuid_v4 (fst (generateUUID Math_random g)) = true
  /\ JS.length (fst (generateUUID Math_random g)) = 36.
Proof using Math_random_range.
  assert (Hlang : RegExp.lang uuid_v4 (fst (generateUUID Math_random g))).
  { unfold generateUUID.
    change (lit "xxxxxxxx-xxxx-4xxx-yxxx-xxxxxxxxxxxx")
      with (repeat 120%N 8 ++ [45%N] ++ repeat 120%N 4 ++ [45%N] ++ [52%N]
            ++ repeat 120%N 3 ++ [45%N] ++ [121%N] ++ repeat 120%N 3
            ++ [45%N] ++ repeat 120%N 12).
    unfold uuid_v4.
    repeat
      (rewrite replace_xy_app;
       match goal with
       | |- context [replace_xy Math_random (repeat 120%N ?n) ?g0] =>
           pose proof (replace_xy_xs n g0);
           destruct (replace_xy Math_random (repeat 120%N n) g0)
       | |- context [replace_xy Math_random [121%N] ?g0] =>
           pose proof (replace_xy_y g0);
           destruct (replace_xy Math_random [121%N] g0)
       | |- context [replace_xy Math_random [?c] ?g0] =>
           change (replace_xy Math_random [c] g0) with ([c], g0)
       end; cbv iota beta).
    match goal with
    | |- context [replace_xy Math_random (repeat 120%N ?n) ?g0] =>
        pose proof (replace_xy_xs n g0);
        destruct (replace_xy Math_random (repeat 120%N n) g0)
    end.
    cbn [fst] in *.
    repeat (apply RegExp.lang_seq;
            [first [assumption | apply lang_one; reflexivity] |]).
    assumption. }
  split; [apply test_lang; exact Hlang |].
  unfold generateUUID, JS.length. rewrite replace_xy_length. reflexivity.
Qed.

End RandomFacts.

Lemma generateUUID_is_v4_witness :
  RegExp.test uuid_v4
    (fst (generateUUID (fun g : nat => (QArith_base.Qmake (Z.of_nat (g mod 16)) 16, S g)) 0))
  = true
  /\ JS.length
       (fst (generateUUID (fun g : nat => (QArith_base.Qmake (Z.of_nat (g mod 16)) 16, S g)) 0))
     = 36.
Proof.
  apply (@generateUUID_is_v4 nat
           (fun g : nat => (QArith_base.Qmake (Z.of_nat (g mod 16)) 16, S g))).
  intros g. cbn [fst QArith_base.Qnum QArith_base.Qden].
  pose proof (Nat.mod_upper_bound g 16). lia.
Defined.

Example generateUUID_run :
  fst (generateUUID (fun g : nat => (QArith_base.Qmake (Z.of_nat (g mod 16)) 16, S g)) 0)
  = lit "01234567-89ab-4cde-b012-3456789abcde".
Proof. vm_compute. reflexivity. Qed.

(* ================================================================== *)
(** * Properties of the query strings *)
(* ================================================================== *)

Lemma lt_pow2_shiftr (x n : N) : (x < 2 ^ n)%N <-> N.shiftr x n = 0%N.
Proof.
  rewrite N.shiftr_div_pow2. split; intros H.
  - apply N.div_small, H.
  - apply N.div_small_iff in H; [exact H |]. apply N.pow_nonzero. discriminate.
Qed.

Lemma lor_lt_pow2 (x y n : N) :
  (x < 2 ^ n)%N -> (y < 2 ^ n)%N -> (N.lor x y < 2 ^ n)%N.
Proof.
  rewrite !lt_pow2_shiftr, N.shiftr_lor. intros -> ->. reflexivity.
Qed.

Lemma land_lt (x m b : N) : (m < b)%N -> (N.land x m < b)%N.
Proof. intros H. pose proof (N.land_le_r x m). lia. Qed.

Lemma shiftr_lt (x k b : N) : (x < b * 2 ^ k)%N -> (N.shiftr x k < b)%N.
Proof.
  intros H. rewrite N.shiftr_div_pow2.
  apply N.Div0.div_lt_upper_bound. lia.
Qed.

(** The UTF-8 encoding of a code point is made of bytes. *)
Lemma utf8_of_code_point_bytes (c : N) :
  (c < 0x110000)%N ->
  Forall (fun b => (b < 256)%N) (Node.utf8_of_code_point c).
Proof.
  intros Hc. unfold Node.utf8_of_code_point.
  destruct (N.ltb_spec c 0x80); [repeat constructor; lia |].
  destruct (N.ltb_spec c 0x800);
    [| destruct (N.ltb_spec c 0x10000)];
    repeat constructor;
    apply (@lor_lt_pow2 _ _ 8);
    try reflexivity;
    try (apply land_lt; reflexivity);
    try (apply shiftr_lt; cbn; lia).
Qed.

Lemma utf8_encode_bytes (s : jsstring) :
  well_formed s -> Forall (fun b => (b < 256)%N) (Node.utf8_encode s).
Proof.
  assert (Hgen : forall n s, List.length s <= n -> well_formed s ->
                             Forall (fun b => (b < 256)%N) (Node.utf8_encode s)).
  { clear s. induction n as [|n IH]; intros s Hlen Hwf.
    - destruct s; [constructor | cbn in Hlen; lia].
    - destruct s as [|u rest]; [constructor |].
      inversion Hwf as [|? ? Hu Hrest]; subst. cbn in Hlen.
      cbn [Node.utf8_encode].
      assert (Hfffd : Forall (fun b => (b < 256)%N)
                             (Node.utf8_of_code_point 0xFFFD)).
      { apply utf8_of_code_point_bytes. reflexivity. }
      assert (Htail : Forall (fun b => (b < 256)%N) (Node.utf8_encode rest)).
      { apply IH; [lia | exact Hrest]. }
      destruct (Node.is_high_surrogate u) eqn:Hhigh.
      + destruct rest as [|v rest']; [exact Hfffd |].
        destruct (Node.is_low_surrogate v) eqn:Hlow.
        * inversion Hrest; subst. apply Forall_app. split.
          -- apply utf8_of_code_point_bytes.
             unfold Node.is_high_surrogate, Node.is_low_surrogate in *.
             apply andb_true_iff in Hhigh, Hlow.
             rewrite !N.leb_le in Hhigh, Hlow.
             rewrite N.shiftl_mul_pow2. change (2 ^ 10)%N with 1024%N. lia.
          -- apply IH; [cbn in Hlen; lia | assumption].
        * apply Forall_app. split; assumption.
      + destruct (Node.is_low_surrogate u); apply Forall_app; split;
          try assumption.
        apply utf8_of_code_point_bytes. cbn in Hu. lia. }
  apply (Hgen (List.length s)). apply Nat.le_refl.
Qed.

(** Checked on each of the 256 bytes. *)
Lemma serialize_byte_chars (b : N) :
  (b < 256)%N ->
  Forall (fun u => value_char u = true) (URLSearchParams.serialize_byte b).
Proof.
  intros Hb.
  assert (Hall : forallb
                   (fun b => forallb value_char (URLSearchParams.serialize_byte b))
                   (List.map N.of_nat (seq 0 256)) = true)
    by (vm_compute; reflexivity).
  rewrite forallb_forall in Hall.
  specialize (Hall b). rewrite forallb_forall in Hall.
  apply Forall_forall. apply Hall.
  apply in_map_iff. exists (N.to_nat b). split; [lia |].
  apply in_seq. lia.
Qed.

Lemma serialize_chars (s : jsstring) :
  well_formed s ->
  Forall (fun u => value_char u = true) (URLSearchParams.serialize s).
Proof.
  intros Hwf. unfold URLSearchParams.serialize.
  pose proof (utf8_encode_bytes Hwf) as Hbytes.
  induction Hbytes as [|b bs Hb _ IH]; [constructor |].
  cbn [flat_map]. apply Forall_app. split; [| exact IH].
  apply serialize_byte_chars. exact Hb.
Qed.

Lemma value_chars_count (l : jsstring) (sep : N) :
  value_char sep = false ->
  Forall (fun u => value_char u = true) l ->
  count_occ N.eq_dec l sep = 0.
Proof.
  intros Hsep. induction 1 as [|u l Hu _ IH]; [reflexivity |].
  cbn [count_occ]. destruct (N.eq_dec u sep) as [-> | _]; [congruence | exact IH].
Qed.

Lemma value_chars_query (l : jsstring) :
  Forall (fun u => value_char u = true) l ->
  Forall (fun u => query_char u = true) l.
Proof.
  apply Forall_impl. intros u Hu. unfold query_char. rewrite Hu. reflexivity.
Qed.

(** The serialisation of [n] pairs is a query of [n] parameters: no name
    and no value can add a separator. *)
Lemma toString_query (ps : URLSearchParams.t) :
  well_formed_params ps ->
  query_of (List.length ps) (URLSearchParams.toString ps).
Proof.
  unfold query_of.
  induction 1 as [|[name value] ps [Hn Hv] Hps IH];
    [repeat split; auto; constructor |].
  cbn [fst snd] in Hn, Hv.
  pose proof (serialize_chars Hn) as Cn. pose proof (serialize_chars Hv) as Cv.
  destruct IH as (Hq & Heq & Hamp & Hnil).
  cbn [URLSearchParams.toString List.length].
  assert (Hrest :
    Forall (fun u => query_char u = true)
           match ps with [] => [] | _ :: _ => 38%N :: URLSearchParams.toString ps end
    /\ count_occ N.eq_dec
         match ps with [] => [] | _ :: _ => 38%N :: URLSearchParams.toString ps end
         61%N = List.length ps
    /\ count_occ N.eq_dec
         match ps with [] => [] | _ :: _ => 38%N :: URLSearchParams.toString ps end
         38%N = List.length ps).
  { destruct ps as [|p ps']; [repeat split; constructor |].
    repeat split.
    - constructor; [reflexivity | exact Hq].
    - cbn [count_occ]. destruct (N.eq_dec 38 61); [discriminate | exact Heq].
    - cbn [count_occ]. destruct (N.eq_dec 38 38); [| contradiction].
      rewrite Hamp. cbn [List.length]. lia. }
  destruct Hrest as (Rq & Req & Ramp).
  repeat split.
  - repeat (apply Forall_app; split);
      try (apply value_chars_query; assumption); try assumption.
    repeat constructor.
  - rewrite !count_occ_app, Req.
    rewrite (@value_chars_count _ 61%N eq_refl Cn),
      (@value_chars_count _ 61%N eq_refl Cv).
    reflexivity.
  - rewrite !count_occ_app, Ramp.
    rewrite (@value_chars_count _ 38%N eq_refl Cn),
      (@value_chars_count _ 38%N eq_refl Cv).
    cbn. lia.
  - intros H. apply (f_equal (@List.length N)) in H.
    rewrite !length_app in H. cbn in H. lia.
  - discriminate.
Qed.

Lemma lit_well_formed (s : string) : well_formed (lit s).
Proof.
  unfold well_formed, lit. apply Forall_map, Forall_forall. intros a _.
  pose proof (N_ascii_bounded a). lia.
Qed.

Lemma digits_well_formed (d : Decimal.uint) : well_formed (Number.digits d).
Proof.
  unfold well_formed.
  induction d; cbn [Number.digits]; constructor; (reflexivity || assumption).
Qed.

Lemma toString_well_formed (z : Z) : well_formed (Number.toString z).
Proof.
  unfold Number.toString. destruct (Z.to_int z).
  - apply digits_well_formed.
  - constructor; [reflexivity | apply digits_well_formed].
Qed.

Lemma append_number_params (name : string) (n : option Z) (ps : URLSearchParams.t) :
  well_formed_params ps ->
  well_formed_params (URLSearchParams.append_number name n ps)
  /\ List.length (URLSearchParams.append_number name n ps)
     = List.length ps + sent_number n.
Proof.
  intros Hps. unfold URLSearchParams.append_number, sent_number.
  destruct n as [z |]; [destruct (z =? 0)%Z |]; try (split; [exact Hps | lia]).
  unfold URLSearchParams.append. rewrite length_app. split; [| reflexivity].
  apply Forall_app. split; [exact Hps |]. constructor; [| constructor].
  split; [apply lit_well_formed | apply toString_well_formed].
Qed.

Lemma append_string_params (name : string) (s : option jsstring)
    (ps : URLSearchParams.t) :
  well_formed_option s -> well_formed_params ps ->
  well_formed_params (URLSearchParams.append_string name s ps)
  /\ List.length (URLSearchParams.append_string name s ps)
     = List.length ps + sent_string s.
Proof.
  intros Hs Hps. unfold URLSearchParams.append_string, sent_string.
  destruct s as [[|u v] |]; try (split; [exact Hps | lia]).
  unfold URLSearchParams.append. rewrite length_app. split; [| reflexivity].
  apply Forall_app. split; [exact Hps |]. constructor; [| constructor].
  split; [apply lit_well_formed | exact Hs].
Qed.

(** Serialised names and values hold no separator. *)
Lemma value_char_separators (u : N) :
  value_char u = true -> (u =? 38)%N = false /\ (u =? 61)%N = false.
Proof.
  intros H. split; apply N.eqb_neq; intros ->; vm_compute in H; discriminate H.
Qed.

Lemma split_piece (sep : N) (a : jsstring) :
  Forall (fun u => (u =? sep)%N = false) a -> Query.split sep a = [a].
Proof.
  induction 1 as [|u a Hu _ IH]; [reflexivity |].
  cbn [Query.split]. rewrite Hu, IH. reflexivity.
Qed.

Lemma split_app (sep : N) (a b : jsstring) :
  Forall (fun u => (u =? sep)%N = false) a ->
  Query.split sep (a ++ sep :: b) = a :: Query.split sep b.
Proof.
  induction 1 as [|u a Hu _ IH]; cbn [app Query.split].
  - rewrite N.eqb_refl. reflexivity.
  - rewrite Hu, IH. reflexivity.
Qed.

Lemma cut_app (sep : N) (a b : jsstring) :
  Forall (fun u => (u =? sep)%N = false) a ->
  Query.cut sep (a ++ sep :: b) = (a, b).
Proof.
  induction 1 as [|u a Hu _ IH]; cbn [app Query.cut].
  - rewrite N.eqb_refl. reflexivity.
  - rewrite Hu, IH. reflexivity.
Qed.

(** Reading back the serialisation of a parameter list gives the
    parameters appended, in their order, each name and value
    serialised. *)
Lemma parameters_toString (ps : URLSearchParams.t) :
  well_formed_params ps ->
  Query.parameters (URLSearchParams.toString ps)
  = List.map (fun nv => (URLSearchParams.serialize (fst nv),
                         URLSearchParams.serialize (snd nv))) ps.
Proof.
  induction 1 as [|[name value] ps [Hn Hv] Hps IH]; [reflexivity |].
  cbn [fst snd] in Hn, Hv.
  pose proof (serialize_chars Hn) as Cn. pose proof (serialize_chars Hv) as Cv.
  set (sn := URLSearchParams.serialize name) in *.
  set (sv := URLSearchParams.serialize value) in *.
  assert (Hname : Forall (fun u => (u =? 61)%N = false) sn).
  { eapply Forall_impl; [| exact Cn]. intros u Hu.
    apply (@value_char_separators u Hu). }
  assert (Hpiece : Forall (fun u => (u =? 38)%N = false) (sn ++ 61%N :: sv)).
  { apply Forall_app. split; [| constructor; [reflexivity |]].
    - eapply Forall_impl; [| exact Cn]. intros u Hu.
      apply (@value_char_separators u Hu).
    - eapply Forall_impl; [| exact Cv]. intros u Hu.
      apply (@value_char_separators u Hu). }
  assert (Hpairs : forall pieces,
    Query.pairs ((sn ++ 61%N :: sv) :: pieces)
    = (sn, sv) :: Query.pairs pieces).
  { intros pieces. unfold Query.pairs. cbn [filter].
    destruct (sn ++ 61%N :: sv) eqn:Hnil;
      [destruct sn; discriminate Hnil |].
    rewrite <- Hnil. cbn [List.map]. rewrite cut_app by exact Hname.
    reflexivity. }
  cbn [URLSearchParams.toString List.map fst snd]. fold sn sv.
  unfold Query.parameters in *.
  destruct ps as [|p ps'].
  - rewrite app_nil_r. change (sn ++ [61%N] ++ sv) with (sn ++ 61%N :: sv).
    rewrite split_piece by exact Hpiece. rewrite Hpairs. reflexivity.
  - replace (sn ++ [61%N] ++ sv ++ 38%N :: URLSearchParams.toString (p :: ps'))
      with ((sn ++ 61%N :: sv) ++ 38%N :: URLSearchParams.toString (p :: ps'))
      by (rewrite <- app_assoc; reflexivity).
    rewrite split_app by exact Hpiece. rewrite Hpairs, IH. reflexivity.
Qed.

(** Letters, digits and [-] are serialised as they are. *)
Lemma serialize_unreserved (s : jsstring) :
  Forall (fun u => URLSearchParams.is_unreserved u = true) s ->
  URLSearchParams.serialize s = s.
Proof.
  unfold URLSearchParams.serialize.
  induction 1 as [|u s Hu _ IH]; [reflexivity |].
  assert (Hrange : (u < 0x80)%N /\ u <> 0x20%N).
  { unfold URLSearchParams.is_unreserved in Hu.
    rewrite !orb_true_iff, !andb_true_iff, !N.eqb_eq, !N.leb_le in Hu. lia. }
  destruct Hrange as [Hlt Hsp].
  cbn [Node.utf8_encode].
  unfold Node.is_high_surrogate, Node.is_low_surrogate.
  destruct (N.leb_spec 0xD800 u) as [Hhi | _]; [lia |]. cbn [andb].
  destruct (N.leb_spec 0xDC00 u) as [Hlo | _]; [lia |]. cbn [andb].
  unfold Node.utf8_of_code_point.
  destruct (N.ltb_spec u 0x80) as [_ | Hge]; [| lia].
  cbn [app flat_map]. rewrite IH. unfold URLSearchParams.serialize_byte.
  destruct (N.eqb_spec u 0x20) as [Heq | _]; [contradiction |].
  rewrite Hu. reflexivity.
Qed.

Lemma digits_unreserved (d : Decimal.uint) :
  Forall (fun u => URLSearchParams.is_unreserved u = true) (Number.digits d).
Proof.
  induction d; cbn [Number.digits]; constructor; (reflexivity || assumption).
Qed.

Lemma serialize_number (z : Z) :
  URLSearchParams.serialize (Number.toString z) = Number.toString z.
Proof.
  apply serialize_unreserved. unfold Number.toString. destruct (Z.to_int z).
  - apply digits_unreserved.
  - constructor; [reflexivity | apply digits_unreserved].
Qed.

(** What the receiver reads of the parameters one conditional [append]
    adds. *)
Lemma append_number_read (name : string) (n : option Z) (ps : URLSearchParams.t) :
  URLSearchParams.serialize (lit name) = lit name ->
  List.map (fun nv => (URLSearchParams.serialize (fst nv),
                       URLSearchParams.serialize (snd nv)))
           (URLSearchParams.append_number name n ps)
  = List.map (fun nv => (URLSearchParams.serialize (fst nv),
                         URLSearchParams.serialize (snd nv))) ps
    ++ number_parameter name n.
Proof.
  intros Hname. unfold URLSearchParams.append_number, number_parameter.
  destruct n as [z |]; [destruct (z =? 0)%Z |];
    try (rewrite app_nil_r; reflexivity).
  unfold URLSearchParams.append. rewrite map_app. cbn [List.map fst snd].
  rewrite Hname, serialize_number. reflexivity.
Qed.

Lemma append_string_read (name : string) (s : option jsstring)
    (ps : URLSearchParams.t) :
  URLSearchParams.serialize (lit name) = lit name ->
  List.map (fun nv => (URLSearchParams.serialize (fst nv),
                       URLSearchParams.serialize (snd nv)))
           (URLSearchParams.append_string name s ps)
  = List.map (fun nv => (URLSearchParams.serialize (fst nv),
                         URLSearchParams.serialize (snd nv))) ps
    ++ string_parameter name s.
Proof.
  intros Hname. unfold URLSearchParams.append_string, string_parameter.
  destruct s as [[|u v] |]; try (rewrite app_nil_r; reflexivity).
  unfold URLSearchParams.append. rewrite map_app. cbn [List.map fst snd].
  rewrite Hname. reflexivity.
Qed.

(** A parameter of one name is not a parameter of another. *)
Lemma named_number_parameter (name name' : string) (n : option Z) :
  jsstring_eqb (lit name') (lit name) = false ->
  Query.named name (number_parameter name' n) = [].
Proof.
  intros Hne. unfold Query.named, number_parameter.
  destruct n as [z |]; [destruct (z =? 0)%Z |]; try reflexivity.
  cbn [filter fst]. rewrite Hne. reflexivity.
Qed.

Lemma named_string_parameter (name name' : string) (s : option jsstring) :
  jsstring_eqb (lit name') (lit name) = false ->
  Query.named name (string_parameter name' s) = [].
Proof.
  intros Hne. unfold Query.named, string_parameter.
  destruct s as [[|u v] |]; try reflexivity.
  cbn [filter fst]. rewrite Hne. reflexivity.
Qed.

(** The parameters [ProjectsService.list] sends, as the receiver reads
    them. *)
Lemma projects_list_url_read (o : ProjectsService.ListProjectsOptions) :
  well_formed_option (ProjectsService.status o) ->
  well_formed_option (ProjectsService.sortBy o) ->
  well_formed_option (ProjectsService.sortOrder o) ->
  exists q,
    ProjectsService.list_url o = lit "/projects?" ++ q
    /\ query_of (projects_sent o) q
    /\ Query.parameters q
       = number_parameter "page" (ProjectsService.page o)
         ++ number_parameter "limit" (ProjectsService.limit o)
         ++ string_parameter "status" (ProjectsService.status o)
         ++ string_parameter "sortBy" (ProjectsService.sortBy o)
         ++ string_parameter "sortOrder" (ProjectsService.sortOrder o).
Proof.
  intros H1 H2 H3. unfold ProjectsService.list_url. cbv zeta.
  eexists. split; [reflexivity |].
  destruct (@append_number_params "page" (ProjectsService.page o) [])
    as [W1 L1]; [constructor |].
  destruct (@append_number_params "limit" (ProjectsService.limit o) _ W1)
    as [W2 L2].
  destruct (@append_string_params "status" _ _ H1 W2) as [W3 L3].
  destruct (@append_string_params "sortBy" _ _ H2 W3) as [W4 L4].
  destruct (@append_string_params "sortOrder" _ _ H3 W4) as [W5 L5].
  split.
  - pose proof (toString_query W5) as Hq.
    rewrite L5, L4, L3, L2, L1 in Hq. exact Hq.
  - rewrite (parameters_toString W5).
    rewrite !append_string_read, !append_number_read by reflexivity.
    cbn [List.map app]. rewrite <- !app_assoc. reflexivity.
Qed.

(** X13.  The URL [ProjectsService.list] requests is ["/projects?"]
    followed by a query of exactly as many parameters as the options hold
    truthy fields: an absent field, a zero [page] or [limit] and an empty
    string are not sent (with none sent the URL is ["/projects?"]), and no
    value, whatever characters it holds, can add a [=] or a [&].  Read
    back by the receiver, the parameters are, in this order, [page],
    [limit], [status], [sortBy] and [sortOrder], each with the digits of
    its number ([page] and [limit] being safe integers) or its serialised
    string.  [getActive] always sends [status=active], and no other
    [status], whatever the options say. *)
Theorem projects_list_query (A : Type) (get : jsstring -> A)
    (options : ProjectsService.ListProjectsOptions) :
  well_formed_option (ProjectsService.status options) ->
  well_formed_option (ProjectsService.sortBy options) ->
  well_formed_option (ProjectsService.sortOrder options) ->
  (exists q,
     ProjectsService.list get options = get (lit "/projects?" ++ q)
     /\ query_of (projects_sent options) q
     /\ (safe_option (ProjectsService.page options) = true ->
         safe_option (ProjectsService.limit options) = true ->
         Query.parameters q
         = number_parameter "page" (ProjectsService.page options)
           ++ number_parameter "limit" (ProjectsService.limit options)
           ++ string_parameter "status" (ProjectsService.status options)
           ++ string_parameter "sortBy" (ProjectsService.sortBy options)
           ++ string_parameter "sortOrder" (ProjectsService.sortOrder options)))
  /\ (exists q,
        ProjectsService.getActive get options = get (lit "/projects?" ++ q)
        /\ query_of (sent_number (ProjectsService.page options)
                     + sent_number (ProjectsService.limit options) + 1
                     + sent_string (ProjectsService.sortBy options)
                     + sent_string (ProjectsService.sortOrder options)) q
        /\ Query.named "status" (Query.parameters q)
           = [(lit "status", lit "active")]
        /\ (safe_option (ProjectsService.page options) = true ->
            safe_option (ProjectsService.limit options) = true ->
            Query.parameters q
            = number_parameter "page" (ProjectsService.page options)
              ++ number_parameter "limit" (ProjectsService.limit options)
              ++ [(lit "status", lit "active")]
              ++ string_parameter "sortBy" (ProjectsService.sortBy options)
              ++ string_parameter "sortOrder" (ProjectsService.sortOrder options))).
Proof.
  intros Hstatus HsortBy HsortOrder. split.
  - destruct (projects_list_url_read options Hstatus HsortBy HsortOrder)
      as (q & Hurl & Hq & Hread).
    exists q. unfold ProjectsService.list. rewrite Hurl.
    split; [reflexivity |]. split; [exact Hq |]. intros _ _. exact Hread.
  - unfold ProjectsService.getActive, ProjectsService.list.
    match goal with
    | |- context [ProjectsService.list_url ?o] =>
        destruct (projects_list_url_read o) as (q & Hurl & Hq & Hread);
        try assumption; [apply lit_well_formed |]
    end.
    cbn [ProjectsService.page ProjectsService.limit ProjectsService.status
         ProjectsService.sortBy ProjectsService.sortOrder] in Hread.
    assert (Hactive : string_parameter "status" (Some (lit "active"))
                      = [(lit "status", lit "active")])
      by (vm_compute; reflexivity).
    rewrite Hactive in Hread.
    exists q. rewrite Hurl. split; [reflexivity |]. split; [exact Hq |].
    split; [| intros _ _; exact Hread].
    rewrite Hread. unfold Query.named. rewrite !filter_app.
    fold (Query.named "status" (number_parameter "page" (ProjectsService.page options))).
    fold (Query.named "status" (number_parameter "limit" (ProjectsService.limit options))).
    fold (Query.named "status" (string_parameter "sortBy" (ProjectsService.sortBy options))).
    fold (Query.named "status" (string_parameter "sortOrder" (ProjectsService.sortOrder options))).
    rewrite !named_number_parameter, !named_string_parameter
      by (vm_compute; reflexivity).
    vm_compute. reflexivity.
Qed.

Lemma projects_list_query_witness :
  (exists q,
     ProjectsService.list (fun url => url)
       {| ProjectsService.page := Some 2%Z; ProjectsService.limit := Some 0%Z;
          ProjectsService.status := Some (lit "active&admin=1");
          ProjectsService.sortBy := None; ProjectsService.sortOrder := Some [] |}
     = lit "/projects?" ++ q
     /\ query_of 2 q
     /\ Query.parameters q
        = [(lit "page", lit "2"); (lit "status", lit "active%26admin%3D1")])
  /\ (exists q,
        ProjectsService.getActive (fun url => url)
          {| ProjectsService.page := Some 2%Z; ProjectsService.limit := Some 0%Z;
             ProjectsService.status := Some (lit "active&admin=1");
             ProjectsService.sortBy := None; ProjectsService.sortOrder := Some [] |}
        = lit "/projects?" ++ q
        /\ query_of 2 q
        /\ Query.named "status" (Query.parameters q)
           = [(lit "status", lit "active")]
        /\ Query.parameters q
           = [(lit "page", lit "2"); (lit "status", lit "active")]).
Proof.
  destruct (@projects_list_query jsstring (fun url => url)
              {| ProjectsService.page := Some 2%Z; ProjectsService.limit := Some 0%Z;
                 ProjectsService.status := Some (lit "active&admin=1");
                 ProjectsService.sortBy := None;
                 ProjectsService.sortOrder := Some [] |})
    as [(q & Hurl & Hq & Hread) (q' & Hurl' & Hq' & Hstatus & Hread')].
  - apply lit_well_formed.
  - exact I.
  - constructor.
  - split.
    + exists q. split; [exact Hurl |]. split; [exact Hq |].
      exact (Hread eq_refl eq_refl).
    + exists q'. split; [exact Hurl' |]. split; [exact Hq' |].
      split; [exact Hstatus |]. exact (Hread' eq_refl eq_refl).
Defined.

Example projects_list_url_encoded :
  ProjectsService.list_url
    {| ProjectsService.page := Some 2%Z; ProjectsService.limit := Some 0%Z;
       ProjectsService.status := Some (lit "active&admin=1");
       ProjectsService.sortBy := None; ProjectsService.sortOrder := Some [] |}
  = lit "/projects?page=2&status=active%26admin%3D1".
Proof. vm_compute. reflexivity. Qed.

(** X14.  The URL [InvestmentsService.list] requests is ["/investments?"]
    followed by a query of exactly as many parameters as the options hold
    truthy fields, in which no value can add a [=] or a [&]; and
    [getByProject] with an empty project id, like [getByInvestor] with an
    empty account, sends no filter at all: it requests the unfiltered
    list. *)
Theorem investments_list_query (A : Type) (get : jsstring -> A)
    (options : InvestmentsService.ListInvestmentsOptions) :
  well_formed_option (InvestmentsService.projectId options) ->
  well_formed_option (InvestmentsService.investorAccount options) ->
  well_formed_option (InvestmentsService.status options) ->
  well_formed_option (InvestmentsService.sortBy options) ->
  well_formed_option (InvestmentsService.sortOrder options) ->
  (exists q,
     InvestmentsService.list get options = get (lit "/investments?" ++ q)
     /\ query_of (investments_sent options) q)
  /\ (InvestmentsService.projectId options = None ->
      InvestmentsService.getByProject get [] options
      = InvestmentsService.list get options)
  /\ (InvestmentsService.investorAccount options = None ->
      InvestmentsService.getByInvestor get [] options
      = InvestmentsService.list get options).
Proof.
  intros H1 H2 H3 H4 H5. split; [| split].
  - unfold InvestmentsService.list, InvestmentsService.list_url. cbv zeta.
    eexists. split; [reflexivity |].
    destruct (@append_number_params "page" (InvestmentsService.page options) [])
      as [W1 L1]; [constructor |].
    destruct (@append_number_params "limit" (InvestmentsService.limit options) _ W1)
      as [W2 L2].
    destruct (@append_string_params "projectId" _ _ H1 W2) as [W3 L3].
    destruct (@append_string_params "investorAccount" _ _ H2 W3) as [W4 L4].
    destruct (@append_string_params "status" _ _ H3 W4) as [W5 L5].
    destruct (@append_string_params "sortBy" _ _ H4 W5) as [W6 L6].
    destruct (@append_string_params "sortOrder" _ _ H5 W6) as [W7 L7].
    pose proof (toString_query W7) as Hq.
    rewrite L7, L6, L5, L4, L3, L2, L1 in Hq. exact Hq.
  - intros Hnone.
    unfold InvestmentsService.getByProject, InvestmentsService.list,
      InvestmentsService.list_url.
    cbn [InvestmentsService.projectId InvestmentsService.page
         InvestmentsService.limit InvestmentsService.investorAccount
         InvestmentsService.status InvestmentsService.sortBy
         InvestmentsService.sortOrder].
    rewrite Hnone. reflexivity.
  - intros Hnone.
    unfold InvestmentsService.getByInvestor, InvestmentsService.list,
      InvestmentsService.list_url.
    cbn [InvestmentsService.projectId InvestmentsService.page
         InvestmentsService.limit InvestmentsService.investorAccount
         InvestmentsService.status InvestmentsService.sortBy
         InvestmentsService.sortOrder].
    rewrite Hnone. reflexivity.
Qed.

Lemma investments_list_query_witness :
  (exists q,
     InvestmentsService.list (fun url => url)
       {| InvestmentsService.page := None; InvestmentsService.limit := Some 10%Z;
          InvestmentsService.projectId := Some (lit "proj 1");
          InvestmentsService.investorAccount := None;
          InvestmentsService.status := None;
          InvestmentsService.sortBy := None;
          InvestmentsService.sortOrder := None |}
     = lit "/investments?" ++ q
     /\ query_of 2 q)
  /\ InvestmentsService.getByProject (fun url => url) []
       {| InvestmentsService.page := None; InvestmentsService.limit := Some 10%Z;
          InvestmentsService.projectId := None;
          InvestmentsService.investorAccount := None;
          InvestmentsService.status := None;
          InvestmentsService.sortBy := None;
          InvestmentsService.sortOrder := None |}
     = lit "/investments?limit=10".
Proof.
  split.
  - apply (@investments_list_query jsstring (fun url => url)
             {| InvestmentsService.page := None;
                InvestmentsService.limit := Some 10%Z;
                InvestmentsService.projectId := Some (lit "proj 1");
                InvestmentsService.investorAccount := None;
                InvestmentsService.status := None;
                InvestmentsService.sortBy := None;
                InvestmentsService.sortOrder := None |});
      try exact I. apply lit_well_formed.
  - rewrite (proj1 (proj2
      (@investments_list_query jsstring (fun url => url)
         {| InvestmentsService.page := None;
            InvestmentsService.limit := Some 10%Z;
            InvestmentsService.projectId := None;
            InvestmentsService.investorAccount := None;
            InvestmentsService.status := None;
            InvestmentsService.sortBy := None;
            InvestmentsService.sortOrder := None |} I I I I I)) eq_refl).
    vm_compute. reflexivity.
Defined.

(** X15.  The URL [getDeliveries] requests is ["/webhooks/"], the webhook
    id as it was given, ["/deliveries?"], and a query of exactly as many
    parameters as the options hold truthy fields (none when the options
    are left out), in which no value can add a [=] or a [&]. *)
Theorem getDeliveries_query (A : Type) (get : jsstring -> A)
    (webhookId : jsstring) (options : option Deliveries.Options) :
  well_formed_option (Deliveries.field options Deliveries.status) ->
  exists q,
    Deliveries.getDeliveries get webhookId options
    = get (lit "/webhooks/" ++ webhookId ++ lit "/deliveries?" ++ q)
    /\ query_of (deliveries_sent options) q.
Proof.
  intros H. unfold Deliveries.getDeliveries, Deliveries.url. cbv zeta.
  eexists. split; [reflexivity |].
  destruct (@append_number_params "page"
              (Deliveries.field options Deliveries.page) [])
    as [W1 L1]; [constructor |].
  destruct (@append_number_params "limit"
              (Deliveries.field options Deliveries.limit) _ W1) as [W2 L2].
  destruct (@append_string_params "status" _ _ H W2) as [W3 L3].
  pose proof (toString_query W3) as Hq.
  rewrite L3, L2, L1 in Hq. exact Hq.
Qed.

Lemma getDeliveries_query_witness :
  exists q,
    Deliveries.getDeliveries (fun url => url) (lit "wh_1")
      (Some {| Deliveries.page := Some 3%Z; Deliveries.limit := None;
               Deliveries.status := Some (lit "failed") |})
    = lit "/webhooks/" ++ lit "wh_1" ++ lit "/deliveries?" ++ q
    /\ query_of 2 q.
Proof.
  apply (@getDeliveries_query jsstring (fun url => url) (lit "wh_1")
           (Some {| Deliveries.page := Some 3%Z; Deliveries.limit := None;
                    Deliveries.status := Some (lit "failed") |})).
  apply lit_well_formed.
Defined.

Example getDeliveries_urls :
  Deliveries.url (lit "wh_1") None = lit "/webhooks/wh_1/deliveries?"
  /\ Deliveries.url (lit "wh_1")
       (Some {| Deliveries.page := Some 3%Z; Deliveries.limit := Some 0%Z;
                Deliveries.status := Some (lit "failed") |})
     = lit "/webhooks/wh_1/deliveries?page=3&status=failed".
Proof. split; vm_compute; reflexivity. Qed.

(* ================================================================== *)
(** * Properties of the client constructor *)
(* ================================================================== *)

(** X16.  [new XRPLSaleClient(config)] succeeds exactly when the API key
    is not empty and the environment is absent, empty, ["production"] or
    ["testnet"]; an empty key is reported first, whatever the environment.
    The client it builds talks to the testnet URL for ["testnet"] and to
    the production URL otherwise, sends ["Bearer " + apiKey], takes the
    timeout of the configuration when it is given and not zero and 30000
    when it is absent or zero (so never a zero timeout), and hands
    [config.webhookSecret] to its webhook service. *)
Theorem constructor_succeeds_iff (config : Client.XRPLSaleConfig) :
  let env := Client.or_string (Client.environment config) (lit "production") in
  ((exists client, Client.constructor config = inr client)
   <-> Client.apiKey config <> []
       /\ (env = lit "production" \/ env = lit "testnet"))
  /\ (Client.apiKey config = [] ->
      Client.constructor config = inl Client.ApiKeyRequired)
  /\ (forall client,
        Client.constructor config = inr client ->
        Client.baseURL (Client.httpClient client)
        = (if jsstring_eqb env (lit "testnet")
           then lit "https://testnet.xrpl.sale/api"
           else lit "https://xrpl.sale/api")
        /\ In ("Authorization"%string, lit "Bearer " ++ Client.apiKey config)
              (Client.headers (Client.httpClient client))
        /\ Client.axios_timeout (Client.httpClient client) <> 0%Z
        /\ (Client.timeout config = None \/ Client.timeout config = Some 0%Z ->
            Client.axios_timeout (Client.httpClient client) = 30000%Z)
        /\ (forall t, Client.timeout config = Some t -> t <> 0%Z ->
            Client.axios_timeout (Client.httpClient client) = t)
        /\ webhookSecret (Client.webhooks client)
           = Client.webhookSecret config).
Proof.
  intros env.
  assert (Htimeout :
    Client.or_number (Client.timeout config) 30000 <> 0%Z
    /\ (Client.timeout config = None \/ Client.timeout config = Some 0%Z ->
        Client.or_number (Client.timeout config) 30000 = 30000%Z)
    /\ (forall t, Client.timeout config = Some t -> t <> 0%Z ->
        Client.or_number (Client.timeout config) 30000 = t)).
  { unfold Client.or_number. destruct (Client.timeout config) as [z |].
    - destruct (Z.eqb_spec z 0) as [-> | Hz].
      + split; [lia |]. split; [reflexivity |].
        intros t [= <-] Ht. contradiction.
      + split; [exact Hz |]. split.
        * intros [H | H]; [discriminate H | injection H as H; contradiction].
        * intros t [= <-] _. reflexivity.
    - split; [lia |]. split; [reflexivity |]. intros t H. discriminate H. }
  destruct Htimeout as (Hnonzero & Hdefault & Hgiven).
  unfold Client.constructor, Client.getBaseURL. fold env.
  destruct (Client.apiKey config) as [|k key] eqn:Hkey.
  - split; [| split].
    + split; [intros (client & [=]) | intros [H _]; contradiction].
    + reflexivity.
    + intros client [=].
  - destruct (jsstring_eqb env (lit "production")) eqn:Hprod.
    + apply jsstring_eqb_eq in Hprod. split; [| split].
      * split; [intros _; split; [discriminate | left; exact Hprod] | eauto].
      * discriminate.
      * intros client [= <-]. cbn. rewrite Hprod. cbn.
        repeat split; try assumption. left; reflexivity.
    + destruct (jsstring_eqb env (lit "testnet")) eqn:Htest.
      * apply jsstring_eqb_eq in Htest. split; [| split].
        -- split; [intros _; split; [discriminate | right; exact Htest] | eauto].
        -- discriminate.
        -- intros client [= <-]. cbn.
           repeat split; try assumption. left; reflexivity.
      * split; [| split].
        -- split; [intros (client & [=]) |].
           intros [_ [H | H]]; apply jsstring_eqb_eq in H; congruence.
        -- discriminate.
        -- intros client [=].
Qed.

(** A client built for the testnet from a configuration with a zero
    timeout. *)
Lemma constructor_succeeds_iff_witness :
  exists client,
    Client.constructor
      {| Client.apiKey := lit "key"; Client.environment := Some (lit "testnet");
         Client.timeout := Some 0%Z; Client.debug := None;
         Client.webhookSecret := Some (lit "whsec_test") |}
    = inr client
    /\ Client.baseURL (Client.httpClient client)
       = lit "https://testnet.xrpl.sale/api"
    /\ In ("Authorization"%string, lit "Bearer key")
          (Client.headers (Client.httpClient client))
    /\ Client.axios_timeout (Client.httpClient client) = 30000%Z
    /\ webhookSecret (Client.webhooks client) = Some (lit "whsec_test").
Proof.
  pose (config :=
    {| Client.apiKey := lit "key"; Client.environment := Some (lit "testnet");
       Client.timeout := Some 0%Z; Client.debug := None;
       Client.webhookSecret := Some (lit "whsec_test") |}).
  destruct (constructor_succeeds_iff config) as (Hiff & _ & Hbuilt).
  destruct (proj2 Hiff) as (client & Hclient).
  - split; [discriminate | right; reflexivity].
  - exists client. split; [exact Hclient |].
    destruct (Hbuilt client Hclient)
      as (Hurl & Hauth & _ & Hdefault & _ & Hsecret).
    split; [exact Hurl |]. split; [exact Hauth |].
    split; [apply Hdefault; right; reflexivity | exact Hsecret].
Defined.

(** An empty key is reported before an unknown environment. *)
Example constructor_empty_key_first :
  Client.constructor
    {| Client.apiKey := []; Client.environment := Some (lit "staging");
       Client.timeout := None; Client.debug := None;
       Client.webhookSecret := None |}
  = inl Client.ApiKeyRequired.
Proof. reflexivity. Qed.

Example constructor_unknown_environment :
  Client.constructor
    {| Client.apiKey := lit "key"; Client.environment := Some (lit "staging");
       Client.timeout := None; Client.debug := None;
       Client.webhookSecret := None |}
  = inl (Client.UnknownEnvironment (lit "staging"))
  /\ Client.error_message (Client.UnknownEnvironment (lit "staging"))
     = lit "Unknown environment: staging".
Proof. split; reflexivity. Qed.

(** X17.  The webhook service of a client verifies with the secret of the
    client's configuration: when that secret is a non-empty string, a
    signature made with it verifies with no secret passed per call; when
    the configuration holds no secret (or an empty one), verifying with no
    per-call secret throws the missing-secret error. *)
Theorem client_webhooks_use_config_secret {R : Runtime}
    (config : Client.XRPLSaleConfig) (client : Client.XRPLSaleClient)
    (payload : payload) (signature : jsstring) :
  Client.constructor config = inr client ->
  (forall s, Client.webhookSecret config = Some s -> s <> [] ->
             verifySignature (Client.webhooks client) payload
               (Scenario.sign payload s) None
             = Return true)
  /\ (falsy (Client.webhookSecret config) = true ->
      verifySignature (Client.webhooks client) payload signature None
      = Throw ConfigurationError).
Proof.
  intros Hnew.
  assert (Hsecret : webhookSecret (Client.webhooks client)
                    = Client.webhookSecret config).
  { unfold Client.constructor in Hnew.
    destruct (Client.apiKey config); [discriminate |].
    destruct (Client.getBaseURL _); [discriminate |].
    injection Hnew as <-. reflexivity. }
  split.
  - intros s Hs Hne. apply sign_then_verify_default; [exact Hne |].
    rewrite Hsecret. exact Hs.
  - intros Hfalsy. unfold verifySignature. rewrite Hsecret, Hfalsy. reflexivity.
Qed.

Lemma client_webhooks_use_config_secret_witness :
  exists client,
    Client.constructor
      {| Client.apiKey := lit "key"; Client.environment := None;
         Client.timeout := None; Client.debug := None;
         Client.webhookSecret := Some (lit "whsec_test") |}
    = inr client
    /\ verifySignature (R := Node.runtime) (Client.webhooks client)
         Scenario.payload
         (Scenario.sign (R := Node.runtime) Scenario.payload (lit "whsec_test"))
         None
       = Return true.
Proof.
  eexists. split; [reflexivity |].
  refine (proj1 (@client_webhooks_use_config_secret Node.runtime
                   {| Client.apiKey := lit "key"; Client.environment := None;
                      Client.timeout := None; Client.debug := None;
                      Client.webhookSecret := Some (lit "whsec_test") |}
                   _ Scenario.payload [] eq_refl)
            (lit "whsec_test") eq_refl _).
  discriminate.
Defined.

(* ================================================================== *)
(** * Properties of [generateRandomString] *)
(* ================================================================== *)

Lemma charAt_chars (i : Z) :
  Forall (fun u => RegExp.in_class alphanumeric u = true) (charAt chars i)
  /\ List.length (charAt chars i) <= 1
  /\ ((0 <= i < 62)%Z -> List.length (charAt chars i) = 1).
Proof.
  assert (Hall : Forall (fun u => RegExp.in_class alphanumeric u = true) chars).
  { apply Forall_forall. apply forallb_forall. vm_compute. reflexivity. }
  unfold charAt. destruct (Z.ltb_spec i 0) as [Hneg | Hpos].
  - repeat split; [constructor | cbn; lia | lia].
  - destruct (nth_error chars (Z.to_nat i)) as [u |] eqn:Hnth.
    + repeat split; [| cbn; lia].
      constructor; [| constructor].
      rewrite Forall_forall in Hall. apply Hall.
      apply (nth_error_In _ _ Hnth).
    + repeat split; [constructor | cbn; lia |].
      intros Hi. apply nth_error_None in Hnth.
      change (List.length chars) with 62 in Hnth. lia.
Qed.

Section RandomStringFacts.

Variable G : Type.
Variable random_index : G -> Z * G.

Lemma random_chars_spec (n : nat) (result : jsstring) (g : G) :
  let out := fst (random_chars random_index n result g) in
  (Forall (fun u => RegExp.in_class alphanumeric u = true) result ->
   Forall (fun u => RegExp.in_class alphanumeric u = true) out)
  /\ List.length out <= List.length result + n
  /\ ((forall g', (0 <= fst (random_index g') < 62)%Z) ->
      List.length out = List.length result + n).
Proof.
  revert result g. induction n as [|n IH]; intros result g; cbn [random_chars].
  - cbn [fst]. repeat split; [tauto | lia | lia].
  - pose proof (fun H => H g : (0 <= fst (random_index g) < 62)%Z) as Hg.
    destruct (random_index g) as [i g']. cbn [fst] in Hg.
    destruct (charAt_chars i) as (Hc & Hle & Hone).
    destruct (IH (result ++ charAt chars i) g') as (Hall & Hlen & Hexact).
    cbv zeta. rewrite length_app in Hlen, Hexact. repeat split.
    + intros Hres. apply Hall, Forall_app. split; assumption.
    + lia.
    + intros Hrange. rewrite (Hexact Hrange), (Hone (Hg Hrange)). lia.
Qed.

(** X19.  [generateRandomString(length)] returns letters and digits only
    and never more than [length] of them (none for a zero or negative
    length); as long as every index drawn lies from 0 to 61, as it does for
    draws of [Math.random] in [[0, 1)], it returns exactly [length]
    characters. *)
Theorem generateRandomString_alphanumeric (length : Z) (g : G) :
  let out := fst (generateRandomString random_index length g) in
  Forall (fun u => RegExp.in_class alphanumeric u = true) out
  /\ JS.length out <= Z.to_nat length
  /\ ((forall g', (0 <= fst (random_index g') < 62)%Z) ->
      JS.length out = Z.to_nat length).
Proof.
  unfold generateRandomString, JS.length.
  destruct (random_chars_spec (Z.to_nat length) [] g) as (Hall & Hlen & Hexact).
  cbv zeta in *. cbn [List.length] in Hlen, Hexact.
  repeat split; [apply Hall; constructor | exact Hlen | exact Hexact].
Qed.

End RandomStringFacts.

Lemma generateRandomString_alphanumeric_witness :
  JS.length
    (fst (generateRandomString (fun g : nat => (Z.of_nat (g mod 62), S g)) 32 0))
  = Z.to_nat 32.
Proof.
  apply (proj2 (proj2 (@generateRandomString_alphanumeric nat
           (fun g : nat => (Z.of_nat (g mod 62), S g)) 32 0))).
  intros g'. cbn [fst]. pose proof (Nat.mod_upper_bound g' 62). lia.
Defined.

Example generateRandomString_run :
  fst (generateRandomString (fun g : nat => (Z.of_nat (g mod 62), S g)) 8 24)
  = lit "YZabcdef"
  /\ fst (generateRandomString (fun g : nat => (Z.of_nat (g mod 62), S g)) (-3) 0)
     = [].
Proof. split; reflexivity. Qed.
